(** * pyresume: the text-transformation pipeline of [scripts/generate_resume.py]

    A shallow embedding of [ResumeGenerator]: the inline-markup translator
    ([convert_markdown_to_latex]), the special-character escaper
    ([escape_latex]), the recursive sanitizer ([_escape_data]), the
    directory loader and the orchestration around the external compiler.

    Python strings are modelled as lists of characters.  The code only ever
    compares characters with ASCII delimiters, so characters are [ascii]. *)

From Stdlib Require Import Ascii String.
From Stdlib Require Import List Bool Arith Lia Permutation ZArith.
Import ListNotations.

Set Implicit Arguments.
Set Warnings "-register-all".

(** ** Python strings and the two library routines the code relies on *)

Module PyStr.

Definition str := list ascii.

(** A literal of the source text. *)
Definition lit (s : string) : str := list_ascii_of_string s.

(** The line feed, the only character the regex dot refuses. *)
Definition newline : ascii := "010"%char.

(** [s.startswith(p)]. *)
Fixpoint startswith (p s : str) : bool :=
  match p, s with
  | [], _ => true
  | _ :: _, [] => false
  | a :: p', b :: s' => Ascii.eqb a b && startswith p' s'
  end.

(** [p in s]. *)
Fixpoint contains (p s : str) : bool :=
  match s with
  | [] => startswith p []
  | _ :: s' => startswith p s || contains p s'
  end.

(** [c in s] for a single character. *)
Definition has_char (c : ascii) (s : str) : bool := existsb (Ascii.eqb c) s.

(** Both [str.replace] and [re.sub] walk the text from left to right: at
    each position they try to match; on a match they emit the replacement
    and resume after the match, otherwise they copy one character.  The
    fuel is the number of positions that may still be visited. *)
Section Scan.
Variable try_match : str -> option (str * str).

Fixpoint scan_fuel (fuel : nat) (s : str) : str :=
  match fuel with
  | 0 => s
  | S fuel' =>
      match try_match s with
      | Some (out, rest) => out ++ scan_fuel fuel' rest
      | None =>
          match s with
          | [] => []
          | c :: s' => c :: scan_fuel fuel' s'
          end
      end
  end.

Definition scan (s : str) : str := scan_fuel (S (length s)) s.
End Scan.

(** One attempt of [str.replace] at the head of [s]. *)
Definition replace_at (old new s : str) : option (str * str) :=
  if startswith old s then Some (new, skipn (length old) s) else None.

(** [s.replace(old, new)]: every non-overlapping occurrence, leftmost
    first.  With an empty [old] Python puts [new] around every character. *)
Definition replace (old new s : str) : str :=
  match old with
  | [] => new ++ flat_map (fun c => c :: new) s
  | _ :: _ => scan (replace_at old new) s
  end.

(** The lazy group [(.+?)] followed by the literal [close]: at least one
    character, none of them a line feed, stopping at the first position
    (after the first character) where [close] follows.  Returns the group
    and the text after [close]. *)
Fixpoint lazy_group (close s : str) : option (str * str) :=
  match s with
  | [] => None
  | c :: s' =>
      if Ascii.eqb c newline then None
      else if startswith close s' then Some ([c], skipn (length close) s')
      else match lazy_group close s' with
           | Some (g, rest) => Some (c :: g, rest)
           | None => None
           end
  end.

(** A match of the pattern [open(.+?)close] anchored at the head of [s]. *)
Definition match_delimited (open close s : str) : option (str * str) :=
  if startswith open s then lazy_group close (skipn (length open) s)
  else None.

(** One attempt of [re.sub] with the template [pre\1post]. *)
Definition sub_at (open close pre post s : str) : option (str * str) :=
  match match_delimited open close s with
  | Some (g, rest) => Some (pre ++ g ++ post, rest)
  | None => None
  end.

(** [re.sub(open(.+?)close, pre\1post, s)] for literal delimiters. *)
Definition re_sub_delimited (open close pre post s : str) : str :=
  scan (sub_at open close pre post) s.

End PyStr.

Import PyStr.

(** ** Python values, as [yaml.safe_load] produces them *)

Module PyVal.

(** Mappings keep insertion order; their keys are the section and field
    names of the resume data, which are strings.  [PObj] stands for any
    other object (a date, say), known only by its identity. *)
Inductive pyval : Type :=
| PNone
| PBool (b : bool)
| PInt (z : Z)
| PFloat (bits : Z)
| PObj (id : nat)
| PStr (s : str)
| PList (l : list pyval)
| PDict (items : list (str * pyval)).

(** Induction that reaches the values inside lists and dicts. *)
Section PyvalInduction.
Variable P : pyval -> Prop.
Hypothesis P_none : P PNone.
Hypothesis P_bool : forall b, P (PBool b).
Hypothesis P_int : forall z, P (PInt z).
Hypothesis P_float : forall bits, P (PFloat bits).
Hypothesis P_obj : forall id, P (PObj id).
Hypothesis P_str : forall s, P (PStr s).
Hypothesis P_list : forall l, Forall P l -> P (PList l).
Hypothesis P_dict :
  forall items, Forall (fun kv => P (snd kv)) items -> P (PDict items).

Fixpoint pyval_nested_ind (v : pyval) : P v :=
  match v with
  | PNone => P_none
  | PBool b => P_bool b
  | PInt z => P_int z
  | PFloat bits => P_float bits
  | PObj id => P_obj id
  | PStr s => P_str s
  | PList l =>
      P_list
        ((fix all (l : list pyval) : Forall P l :=
            match l with
            | [] => Forall_nil P
            | x :: l' => Forall_cons x (pyval_nested_ind x) (all l')
            end) l)
  | PDict items =>
      P_dict
        ((fix all (items : list (str * pyval))
           : Forall (fun kv => P (snd kv)) items :=
            match items with
            | [] => Forall_nil _
            | kv :: items' =>
                Forall_cons kv (pyval_nested_ind (snd kv)) (all items')
            end) items)
  end.
End PyvalInduction.

Definition str_eqb (a b : str) : bool :=
  if list_eq_dec Ascii.ascii_dec a b then true else false.

(** [d[k]] as a lookup. *)
Fixpoint dict_get (d : list (str * pyval)) (k : str) : option pyval :=
  match d with
  | [] => None
  | (k', v) :: d' => if str_eqb k k' then Some v else dict_get d' k
  end.

(** [d[k] = v]: an existing key keeps its place, a new key goes last. *)
Fixpoint dict_set (d : list (str * pyval)) (k : str) (v : pyval)
  : list (str * pyval) :=
  match d with
  | [] => [(k, v)]
  | (k', v') :: d' =>
      if str_eqb k k' then (k', v) :: d' else (k', v') :: dict_set d' k v
  end.

(** A dict comprehension: the items are inserted one by one into [{}]. *)
Definition dict_of_items (items : list (str * pyval)) : list (str * pyval) :=
  fold_left (fun d kv => dict_set d (fst kv) (snd kv)) items [].

Definition dict_keys (d : list (str * pyval)) : list str := map fst d.

End PyVal.

Import PyVal.

(** ** The translator, the escaper and the sanitizer *)

Module Resume.

(** The placeholder markers of the source. *)
Definition TEXTBFSTART : str := lit "<<<TEXTBFSTART>>>".
Definition TEXTBFEND : str := lit "<<<TEXTBFEND>>>".
Definition TEXTITSTART : str := lit "<<<TEXTITSTART>>>".
Definition TEXTITEND : str := lit "<<<TEXTITEND>>>".
Definition TEXTTTSTART : str := lit "<<<TEXTTTSTART>>>".
Definition TEXTTTEND : str := lit "<<<TEXTTTEND>>>".

Definition placeholders : list str :=
  [TEXTBFSTART; TEXTBFEND; TEXTITSTART; TEXTITEND; TEXTTTSTART; TEXTTTEND].

(** The four [re.sub] statements, one pass each over the whole text. *)
Definition sub_bold2 : str -> str :=
  re_sub_delimited (lit "**") (lit "**") TEXTBFSTART TEXTBFEND.
Definition sub_bold1 : str -> str :=
  re_sub_delimited (lit "*") (lit "*") TEXTBFSTART TEXTBFEND.
Definition sub_italic : str -> str :=
  re_sub_delimited (lit "_") (lit "_") TEXTITSTART TEXTITEND.
Definition sub_code : str -> str :=
  re_sub_delimited (lit "`") (lit "`") TEXTTTSTART TEXTTTEND.

(** The body of [convert_markdown_to_latex] on a string. *)
Definition convert_markdown_to_latex_str (text : str) : str :=
  let text := sub_bold2 text in
  let text := sub_bold1 text in
  let text := sub_italic text in
  let text := sub_code text in
  text.

(** [convert_markdown_to_latex]: anything that is not a string is
    returned as it is. *)
Definition convert_markdown_to_latex (text : pyval) : pyval :=
  match text with
  | PStr s => PStr (convert_markdown_to_latex_str s)
  | _ => text
  end.

(** The [replacements] dict of [escape_latex], in insertion order. *)
Definition replacements (preserve_commands : bool) : list (str * str) :=
  [ (lit "&", lit "\&");
    (lit "%", lit "\%");
    (lit "$", lit "\$");
    (lit "#", lit "\#");
    (lit "~", lit "\textasciitilde{}");
    (lit "^", lit "\textasciicircum{}") ]
  ++ (if negb preserve_commands
      then [ (lit "_", lit "\_"); (lit "{", lit "\{"); (lit "}", lit "\}") ]
      else []).

(** [for char, replacement in replacements.items():
       text = text.replace(char, replacement)] *)
Definition escape_chars (table : list (str * str)) (text : str) : str :=
  fold_left (fun text kv => replace (fst kv) (snd kv) text) table text.

(** The six [replace] statements that turn placeholders into commands. *)
Definition resolve_placeholders (text : str) : str :=
  let text := replace TEXTBFSTART (lit "\textbf{") text in
  let text := replace TEXTBFEND (lit "}") text in
  let text := replace TEXTITSTART (lit "\textit{") text in
  let text := replace TEXTITEND (lit "}") text in
  let text := replace TEXTTTSTART (lit "\texttt{") text in
  let text := replace TEXTTTEND (lit "}") text in
  text.

(** The body of [escape_latex] on a string. *)
Definition escape_latex_str (text : str) (preserve_commands : bool) : str :=
  let text := escape_chars (replacements preserve_commands) text in
  if preserve_commands then resolve_placeholders text else text.

Definition escape_latex (text : pyval) (preserve_commands : bool) : pyval :=
  match text with
  | PStr s => PStr (escape_latex_str s preserve_commands)
  | _ => text
  end.

(** [_escape_data]: dicts and lists are rebuilt, strings are converted and
    escaped, everything else is returned. *)
Fixpoint _escape_data (data : pyval) : pyval :=
  match data with
  | PDict items =>
      PDict (dict_of_items
               (map (fun kv => let '(key, value) := kv in
                               (key, _escape_data value)) items))
  | PList l => PList (map _escape_data l)
  | PStr _ => escape_latex (convert_markdown_to_latex data) true
  | _ => data
  end.

End Resume.

Import Resume.

(** ** Exceptions, the output directory and the external collaborators *)

Module Pipeline.

(** The exception classes the code distinguishes: the two that
    [compile_latex] handles, [FileExistsError] (raised by [symlink_to]),
    any other subclass of [Exception], and the exceptions outside
    [Exception] such as [KeyboardInterrupt]. *)
Inductive exn : Type :=
| CalledProcessError (stderr : str)
| FileNotFoundError
| FileExistsError
| OtherException (name : str)
| NonException (name : str).

(** [isinstance(e, Exception)]. *)
Definition is_Exception (e : exn) : bool :=
  match e with
  | NonException _ => false
  | _ => true
  end.

(** [str(e)], as printed in the diagnostics. *)
Definition exn_str (e : exn) : str :=
  match e with
  | CalledProcessError _ => lit "CalledProcessError"
  | FileNotFoundError => lit "FileNotFoundError"
  | FileExistsError => lit "FileExistsError"
  | OtherException name => name
  | NonException name => name
  end.

Inductive outcome (A : Type) : Type :=
| Return (a : A)
| Raise (e : exn).
Arguments Raise {A} e.

(** What sits at a path of the output directory: nothing, a symbolic link
    (whose target exists or not), or a regular file or directory. *)
Inductive node : Type :=
| Absent
| Symlink (target_exists : bool)
| Entry.

(** The two paths [compile_latex] manages. *)
Inductive path : Type :=
| cls_symlink
| fonts_symlink.

Record fs : Type := { cls_node : node; fonts_node : node }.

Definition node_at (p : path) (f : fs) : node :=
  match p with
  | cls_symlink => cls_node f
  | fonts_symlink => fonts_node f
  end.

Definition set_node (p : path) (n : node) (f : fs) : fs :=
  match p with
  | cls_symlink => {| cls_node := n; fonts_node := fonts_node f |}
  | fonts_symlink => {| cls_node := cls_node f; fonts_node := n |}
  end.

(** The state a run threads: the output directory and what was printed. *)
Record state : Type :=
  { files : fs; stdout : list str; stderr : list str }.

(** A data source: a directory of files or a single path.  A file is
    represented by what [open] followed by [yaml.safe_load] gives on it:
    the loaded value or the exception raised. *)
Inductive source : Type :=
| Directory (entries : str -> option (outcome pyval))
| File (content : outcome pyval).

(** The collaborators outside the program. *)
Record world : Type :=
  { output_dir : str;
    (** whether [assets/awesome-cv.cls] and [assets/fonts] exist *)
    asset_exists : path -> bool;
    (** [open(tex_file, "w")] and [f.write]: the exception raised, if any *)
    write_file : str -> str -> option exn;
    (** [subprocess.run(["tectonic", tex_file], check=True, ...)]: its
        captured stdout or the exception raised, and what it leaves in
        the output directory *)
    tectonic : str -> fs -> outcome str * fs;
    (** [jinja_env.get_template(name).render], the data passed as keyword
        arguments *)
    jinja_render : str -> pyval -> outcome str }.

(** Computations that may raise and that change the state. *)
Definition M (A : Type) : Type := state -> outcome A * state.

Definition ret {A} (a : A) : M A := fun st => (Return a, st).
Definition raise {A} (e : exn) : M A := fun st => (Raise e, st).
Definition bind {A B} (m : M A) (k : A -> M B) : M B :=
  fun st =>
    match m st with
    | (Return a, st') => k a st'
    | (Raise e, st') => (Raise e, st')
    end.
Definition lift {A} (r : outcome A) : M A := fun st => (r, st).

Notation "x <- m ;; k" := (bind m (fun x => k))
  (at level 61, m at next level, right associativity).
Notation "m ;; k" := (bind m (fun _ => k))
  (at level 61, right associativity).

(** [try: body  except ...: handler]; [handler e = None] when no clause
    matches [e]. *)
Definition try_except {A} (body : M A) (handler : exn -> option (M A))
  : M A :=
  fun st =>
    match body st with
    | (Return a, st') => (Return a, st')
    | (Raise e, st') =>
        match handler e with
        | Some h => h st'
        | None => (Raise e, st')
        end
    end.

(** [try: ... except: ... finally: final]: [final] runs on every exit and
    an exception it raises replaces the pending result. *)
Definition try_except_finally {A} (body : M A)
           (handler : exn -> option (M A)) (final : M unit) : M A :=
  fun st =>
    let (r, st') := try_except body handler st in
    match final st' with
    | (Return _, st'') => (r, st'')
    | (Raise e, st'') => (Raise e, st'')
    end.

Definition print (s : str) : M unit :=
  fun st => (Return tt,
             {| files := files st; stdout := stdout st ++ [s];
                stderr := stderr st |}).
Definition eprint (s : str) : M unit :=
  fun st => (Return tt,
             {| files := files st; stdout := stdout st;
                stderr := stderr st ++ [s] |}).

Definition put_files (f : fs) : M unit :=
  fun st => (Return tt,
             {| files := f; stdout := stdout st; stderr := stderr st |}).

(** [Path.exists()] follows symbolic links. *)
Definition path_exists (p : path) : M bool :=
  fun st => (Return match node_at p (files st) with
                    | Absent => false
                    | Symlink target_exists => target_exists
                    | Entry => true
                    end, st).

(** [Path.is_symlink()]. *)
Definition is_symlink (p : path) : M bool :=
  fun st => (Return match node_at p (files st) with
                    | Symlink _ => true
                    | _ => false
                    end, st).

(** [Path.symlink_to(target)]: refuses a path that is already taken. *)
Definition symlink_to (p : path) (target_exists : bool) : M unit :=
  fun st =>
    match node_at p (files st) with
    | Absent => put_files (set_node p (Symlink target_exists) (files st)) st
    | _ => (Raise FileExistsError, st)
    end.

(** [Path.unlink()]. *)
Definition unlink (p : path) : M unit :=
  fun st =>
    match node_at p (files st) with
    | Absent => (Raise FileNotFoundError, st)
    | _ => put_files (set_node p Absent (files st)) st
    end.

(** ** The loader *)

Definition sections : list str :=
  [ lit "personal"; lit "config"; lit "experience"; lit "projects";
    lit "education"; lit "skills"; lit "research" ].

(** The [for section in sections] loop of [_load_from_directory]. *)
Fixpoint load_sections (entries : str -> option (outcome pyval))
         (todo : list str) (data : list (str * pyval))
  : outcome (list (str * pyval)) :=
  match todo with
  | [] => Return data
  | section :: todo' =>
      match entries (section ++ lit ".yaml") with
      | Some (Return section_data) =>
          load_sections entries todo' (dict_set data section section_data)
      | Some (Raise e) => Raise e
      | None => load_sections entries todo' data
      end
  end.

Definition _load_from_directory (entries : str -> option (outcome pyval))
  : outcome pyval :=
  match load_sections entries sections [] with
  | Return data => Return (PDict data)
  | Raise e => Raise e
  end.

Definition _load_from_file (content : outcome pyval) : outcome pyval :=
  content.

Definition load_resume_data (src : source) : outcome pyval :=
  match src with
  | Directory entries => _load_from_directory entries
  | File content => _load_from_file content
  end.

(** ** Rendering, compiling, orchestrating *)

Definition render_template (w : world) (template_name : str) (data : pyval)
  : outcome str :=
  let escaped_data := _escape_data data in
  jinja_render w template_name escaped_data.

(** [if not p.exists(): p.symlink_to(assets / ...)]. *)
Definition ensure_symlink (w : world) (p : path) : M unit :=
  present <- path_exists p ;;
  if negb present then symlink_to p (asset_exists w p) else ret tt.

(** [if p.is_symlink(): p.unlink()]. *)
Definition remove_symlink (p : path) : M unit :=
  linked <- is_symlink p ;;
  if linked then unlink p else ret tt.

Definition subprocess_run (w : world) (tex_file : str) : M str :=
  fun st =>
    let (r, f) := tectonic w tex_file (files st) in
    (r, {| files := f; stdout := stdout st; stderr := stderr st |}).

Definition compile_latex (w : world) (tex_content output_name : str)
  : M bool :=
  let tex_file := output_dir w ++ lit "/" ++ output_name ++ lit ".tex" in
  let pdf_file := output_dir w ++ lit "/" ++ output_name ++ lit ".pdf" in
  match write_file w tex_file tex_content with
  | Some e => raise e
  | None =>
      print (lit "# LaTeX file written to: " ++ tex_file) ;;
      try_except_finally
        (ensure_symlink w cls_symlink ;;
         ensure_symlink w fonts_symlink ;;
         print (lit "# Compiling PDF with Tectonic...") ;;
         result_stdout <- subprocess_run w tex_file ;;
         (match result_stdout with
          | [] => ret tt
          | _ :: _ => print result_stdout
          end) ;;
         print (lit "# PDF generated successfully: " ++ pdf_file) ;;
         ret true)
        (fun e =>
           match e with
           | CalledProcessError e_stderr =>
               Some (eprint (lit "# Error compiling LaTeX:" ++ [newline]
                             ++ e_stderr) ;;
                     ret false)
           | FileNotFoundError =>
               Some (eprint (lit "# Tectonic not found. Install from: https://tectonic-typesetting.github.io/en-US/install.html") ;;
                     ret false)
           | _ => None
           end)
        (remove_symlink cls_symlink ;;
         remove_symlink fonts_symlink)
  end.

(** [except Exception as e: print(...); return False]. *)
Definition except_Exception {A} (message : str) (e : exn)
  : option (M (option A)) :=
  if is_Exception e
  then Some (eprint (message ++ exn_str e) ;; ret None)
  else None.

(** [generate].  A source carries what is at the path, not the path, so the
    first message does not show it. *)
Definition generate (w : world) (yaml_file : source)
           (template_name output_name : str) : M bool :=
  print (lit "# Generating resume from data source") ;;
  loaded <- try_except
              (data <- lift (load_resume_data yaml_file) ;;
               print (lit "# Loaded resume data") ;;
               ret (Some data))
              (except_Exception (lit "# Error loading YAML: ")) ;;
  match loaded with
  | None => ret false
  | Some data =>
      rendered <- try_except
                    (tex_content <- lift (render_template w template_name
                                                          data) ;;
                     print (lit "# Rendered template: {template_name}") ;;
                     ret (Some tex_content))
                    (except_Exception (lit "# Error rendering template: ")) ;;
      match rendered with
      | None => ret false
      | Some tex_content => compile_latex w tex_content output_name
      end
  end.

(** [main]: [sys.exit(0 if success else 1)]; an exception that reaches the
    top level ends the interpreter with status 1. *)
Definition main (w : world) (yaml_file : source)
           (template_name output_name : str) (st : state) : Z * state :=
  match generate w yaml_file template_name output_name st with
  | (Return success, st') => ((if success then 0 else 1)%Z, st')
  | (Raise _, st') => (1%Z, st')
  end.

End Pipeline.

Import Pipeline.

(** ** Notions used to state the properties *)

Module Notions.

(** The marker characters of the translator. *)
Definition marker_chars : list ascii := ["*"; "_"; "`"]%char.

(** The characters escaped in both modes, and those escaped in raw mode
    only. *)
Definition reserved_chars : list ascii := ["&"; "%"; "$"; "#"; "~"; "^"]%char.
Definition raw_chars : list ascii := ["_"; "{"; "}"]%char.
Definition special_chars : list ascii := reserved_chars ++ raw_chars.

Definition is_special (c : ascii) : bool := has_char c special_chars.

(** What one [re.sub] pass sees in a text: characters it copies and
    delimited spans it rewrites. *)
Inductive segment : Type :=
| Copied (c : ascii)
| Span (content : str).

(** The piece of the input a segment stands for. *)
Definition seg_source (open close : str) (g : segment) : str :=
  match g with
  | Copied c => [c]
  | Span content => open ++ content ++ close
  end.

(** The piece of the output a segment becomes. *)
Definition seg_output (pre post : str) (g : segment) : str :=
  match g with
  | Copied c => [c]
  | Span content => pre ++ content ++ post
  end.

(** A text in which every special character is the second character of a
    two-character escape sequence: a backslash followed by one of
    [& % $ # _ { }].  The characters [~] and [^] do not occur at all. *)
Inductive escaped : str -> Prop :=
| escaped_nil : escaped []
| escaped_plain c s :
    is_special c = false -> escaped s -> escaped (c :: s)
| escaped_seq c s :
    In c ["&"; "%"; "$"; "#"; "_"; "{"; "}"]%char ->
    escaped s -> escaped ("\"%char :: c :: s).

(** The image of one character under the raw-mode escaper. *)
Definition raw_image (c : ascii) : str := escape_latex_str [c] false.

(** [s] has none of the characters [cs]. *)
Definition free_of (cs : list ascii) (s : str) : bool :=
  forallb (fun c => negb (has_char c cs)) s.

(** A value as Python can hold it: no dict, at any depth, has a key
    twice. *)
Fixpoint dict_wf (v : pyval) : Prop :=
  match v with
  | PList l =>
      (fix all (l : list pyval) : Prop :=
         match l with
         | [] => True
         | x :: l' => dict_wf x /\ all l'
         end) l
  | PDict items =>
      NoDup (dict_keys items) /\
      (fix all (items : list (str * pyval)) : Prop :=
         match items with
         | [] => True
         | kv :: items' => dict_wf (snd kv) /\ all items'
         end) items
  | _ => True
  end.

(** The structure of a value: what is left when the text of every string
    is forgotten. *)
Fixpoint shape (v : pyval) : pyval :=
  match v with
  | PStr _ => PStr []
  | PList l => PList (map shape l)
  | PDict items =>
      PDict (map (fun kv => let '(key, value) := kv in (key, shape value))
                 items)
  | _ => v
  end.

End Notions.

Import Notions.

(** ** Sample inputs *)

Module Samples.

(** An [experience] section: a list of mappings. *)
Definition experience_data : pyval :=
  PDict
    [ (lit "experience",
       PList
         [ PDict [ (lit "title", PStr (lit "*Lead* engineer"));
                   (lit "years", PInt 3) ];
           PDict [ (lit "title", PStr (lit "R&D intern"));
                   (lit "remote", PBool true) ] ]) ].

(** A data directory that holds [personal.yaml] and [skills.yaml] only. *)
Definition two_section_directory (name : str) : option (outcome pyval) :=
  if str_eqb name (lit "personal.yaml")
  then Some (Return (PDict [(lit "name", PStr (lit "Ada"))]))
  else if str_eqb name (lit "skills.yaml")
  then Some (Return (PList [PStr (lit "C#"); PStr (lit "Rocq")]))
  else None.

(** A world in which every collaborator succeeds: the assets exist, the
    LaTeX file can be written, the template renders and the compiler runs
    and leaves the directory as it found it. *)
Definition fair_world : world :=
  {| output_dir := lit "output";
     asset_exists := fun _ => true;
     write_file := fun _ _ => None;
     tectonic := fun _ f => (Return [], f);
     jinja_render := fun _ _ => Return (lit "\documentclass{awesome-cv}") |}.

(** The same world with an output name that points into a directory that
    does not exist, as with [--output drafts/resume]: opening the LaTeX
    file fails. *)
Definition missing_subdir_world : world :=
  {| output_dir := lit "output";
     asset_exists := fun _ => true;
     write_file := fun _ _ => Some FileNotFoundError;
     tectonic := fun _ f => (Return [], f);
     jinja_render := fun _ _ => Return (lit "\documentclass{awesome-cv}") |}.

(** The same world with a compiler that exits with a non-zero status. *)
Definition failing_compiler_world : world :=
  {| output_dir := lit "output";
     asset_exists := fun _ => true;
     write_file := fun _ _ => None;
     tectonic := fun _ f => (Raise (CalledProcessError (lit "error: halted")), f);
     jinja_render := fun _ _ => Return (lit "\documentclass{awesome-cv}") |}.

(** An empty output directory, nothing printed yet. *)
Definition clean_state : state :=
  {| files := {| cls_node := Absent; fonts_node := Absent |};
     stdout := []; stderr := [] |}.

(** An output directory in which [awesome-cv.cls] is a symbolic link whose
    target is gone. *)
Definition dangling_state : state :=
  {| files := {| cls_node := Symlink false; fonts_node := Absent |};
     stdout := []; stderr := [] |}.

End Samples.

Import Samples.

(** ** Further notions *)

Module MoreNotions.

(** A span as the lazy group can capture it: not empty, on one line. *)
Definition span_ok (g : segment) : Prop :=
  match g with
  | Copied _ => True
  | Span content => content <> [] /\ ~ In newline content
  end.

(** Text that can stand between two delimiters and come out as it went
    in: no marker character, no reserved character, no line feed and no
    [<], the character every placeholder marker starts with. *)
Definition word (g : str) : Prop :=
  g <> [] /\
  free_of (marker_chars ++ reserved_chars ++ [newline; "<"%char]) g = true.

(** [p] and [t] differ at a position both have. *)
Fixpoint clash (p t : str) : bool :=
  match p, t with
  | a :: p', b :: t' => if Ascii.eqb a b then clash p' t' else true
  | _, _ => false
  end.

(** No suffix of [u] is the beginning of an occurrence of [p]. *)
Fixpoint clash_all (p u : str) : bool :=
  match u with
  | [] => true
  | _ :: u' => clash p u && clash_all p u'
  end.

(** A text in which [& % $ #] stand only right after a backslash, and in
    which [~] and [^] do not occur. *)
Inductive reserved_escaped : str -> Prop :=
| reserved_escaped_nil : reserved_escaped []
| reserved_escaped_plain c s :
    has_char c reserved_chars = false ->
    reserved_escaped s -> reserved_escaped (c :: s)
| reserved_escaped_seq c s :
    In c ["&"; "%"; "$"; "#"]%char ->
    reserved_escaped s -> reserved_escaped ("\"%char :: c :: s).

(** The image of one character under the six replacements of the
    preserving mode. *)
Definition preserve_image (c : ascii) : str :=
  escape_chars (replacements true) [c].

(** A text to search for that has neither a backslash nor a reserved
    character, as the placeholder markers are. *)
Definition inert (old : str) : bool :=
  forallb (fun a => negb (Ascii.eqb a "\"%char)
                    && negb (has_char a reserved_chars)) old.

(** Every string value inside a value, at any depth, has the property
    [P].  Dict keys are not looked at: see [keys_all]. *)
Fixpoint strings_all (P : str -> Prop) (v : pyval) : Prop :=
  match v with
  | PStr s => P s
  | PList l =>
      (fix all (l : list pyval) : Prop :=
         match l with
         | [] => True
         | x :: l' => strings_all P x /\ all l'
         end) l
  | PDict items =>
      (fix all (items : list (str * pyval)) : Prop :=
         match items with
         | [] => True
         | kv :: items' => strings_all P (snd kv) /\ all items'
         end) items
  | _ => True
  end.

(** A string the sanitizer has nothing to do on. *)
Definition plain (s : str) : Prop :=
  free_of marker_chars s = true /\
  free_of reserved_chars s = true /\
  forall p, In p placeholders -> contains p s = false.

(** The section file of a section. *)
Definition section_file (section : str) : str := section ++ lit ".yaml".

(** The items the directory loader collects over a list of sections when
    every file that is there loads. *)
Definition loaded_items (entries : str -> option (outcome pyval))
           (todo : list str) : list (str * pyval) :=
  flat_map (fun section =>
              match entries (section_file section) with
              | Some (Return v) => [(section, v)]
              | _ => []
              end) todo.

(** A path on which [symlink_to] would fail although [exists()] is false. *)
Definition dangling (n : node) : bool :=
  match n with
  | Symlink false => true
  | _ => false
  end.

(** The path of the LaTeX file. *)
Definition tex_path (w : world) (output_name : str) : str :=
  output_dir w ++ lit "/" ++ output_name ++ lit ".tex".

(** The output directory as the compiler finds it: a link stands where a
    path was absent. *)
Definition prepared (w : world) (f : fs) : fs :=
  {| cls_node := match cls_node f with
                 | Absent => Symlink (asset_exists w cls_symlink)
                 | n => n
                 end;
     fonts_node := match fonts_node f with
                   | Absent => Symlink (asset_exists w fonts_symlink)
                   | n => n
                   end |}.

(** The output directory after the [finally] block: links are gone. *)
Definition cleaned (f : fs) : fs :=
  {| cls_node := match cls_node f with
                 | Symlink _ => Absent
                 | n => n
                 end;
     fonts_node := match fonts_node f with
                   | Symlink _ => Absent
                   | n => n
                   end |}.

(** The lines [compile_latex] prints before the compiler runs. *)
Definition announced (w : world) (output_name : str) (out : list str)
  : list str :=
  (out ++ [lit "# LaTeX file written to: " ++ tex_path w output_name])
  ++ [lit "# Compiling PDF with Tectonic..."].

(** Every dict key inside a value, at any depth, has the property [P]. *)
Fixpoint keys_all (P : str -> Prop) (v : pyval) : Prop :=
  match v with
  | PList l =>
      (fix all (l : list pyval) : Prop :=
         match l with
         | [] => True
         | x :: l' => keys_all P x /\ all l'
         end) l
  | PDict items =>
      (fix all (items : list (str * pyval)) : Prop :=
         match items with
         | [] => True
         | kv :: items' => (P (fst kv) /\ keys_all P (snd kv)) /\ all items'
         end) items
  | _ => True
  end.

(** A text with neither [~] nor [^]. *)
Definition tilde_free (s : str) : Prop :=
  has_char "~"%char s = false /\ has_char "^"%char s = false.

End MoreNotions.

Import MoreNotions.

(** * Properties *)

(** ** The scanner *)

Section ScanFacts.
Variable try_match : str -> option (str * str).
Hypothesis try_match_shrinks :
  forall s out rest,
    try_match s = Some (out, rest) -> length rest < length s.

(** Fuel beyond the length of the text is never used. *)
Lemma scan_fuel_enough :
  forall n m s,
    length s < n -> length s < m ->
    scan_fuel try_match n s = scan_fuel try_match m s.
Proof.
  induction n as [|n IH]; intros m s Hn Hm; [lia|].
  destruct m as [|m]; [lia|].
  simpl. destruct (try_match s) as [[out rest]|] eqn:E.
  - apply try_match_shrinks in E.
    f_equal. apply IH; lia.
  - destruct s as [|c s']; [reflexivity|].
    simpl in Hn, Hm. f_equal. apply IH; lia.
Qed.

(** The scanner satisfies the equation of the left-to-right walk. *)
Lemma scan_eq :
  forall s,
    scan try_match s =
    match try_match s with
    | Some (out, rest) => out ++ scan try_match rest
    | None =>
        match s with
        | [] => []
        | c :: s' => c :: scan try_match s'
        end
    end.
Proof.
  intros s. unfold scan at 1. simpl.
  destruct (try_match s) as [[out rest]|] eqn:E.
  - f_equal. apply try_match_shrinks in E.
    unfold scan. apply scan_fuel_enough; lia.
  - destruct s as [|c s']; [reflexivity|].
    reflexivity.
Qed.

(** Where no attempt succeeds the text is copied. *)
Lemma scan_no_match :
  forall s,
    (forall k, try_match (skipn k s) = None) ->
    scan try_match s = s.
Proof.
  induction s as [|c s IH]; intros H.
  - rewrite scan_eq. pose proof (H 0) as H0. simpl in H0.
    now rewrite H0.
  - rewrite scan_eq. pose proof (H 0) as H0. simpl in H0.
    rewrite H0. f_equal.
    apply IH. intros k. exact (H (S k)).
Qed.
End ScanFacts.

(** ** Prefixes and occurrences *)

Lemma startswith_app : forall p s, startswith p (p ++ s) = true.
Proof.
  induction p as [|a p IH]; intros s; simpl; [reflexivity|].
  now rewrite Ascii.eqb_refl, IH.
Qed.

Lemma startswith_split :
  forall p s, startswith p s = true -> s = p ++ skipn (length p) s.
Proof.
  induction p as [|a p IH]; intros s H; simpl in *; [reflexivity|].
  destruct s as [|b s]; [discriminate|].
  apply andb_true_iff in H. destruct H as [Hab Hp].
  apply Ascii.eqb_eq in Hab. subst b. simpl. f_equal. now apply IH.
Qed.

Lemma startswith_head_absent :
  forall a p s, ~ In a s -> startswith (a :: p) s = false.
Proof.
  intros a p [|b s] H; simpl; [reflexivity|].
  destruct (Ascii.eqb a b) eqn:E; [|reflexivity].
  apply Ascii.eqb_eq in E. subst. exfalso. apply H. now left.
Qed.

Lemma skipn_not_in :
  forall (a : ascii) k s, ~ In a s -> ~ In a (skipn k s).
Proof.
  intros a k s H Hin. apply H.
  rewrite <- (firstn_skipn k s). apply in_or_app. now right.
Qed.

Lemma contains_skipn :
  forall p k s, contains p s = false -> startswith p (skipn k s) = false.
Proof.
  intros p k. induction k as [|k IH]; intros s H.
  - simpl. destruct s; simpl in H; [exact H|].
    now apply orb_false_iff in H.
  - destruct s as [|c s]; simpl in *; [exact H|].
    apply orb_false_iff in H. now apply IH.
Qed.

(** ** [str.replace] *)

Lemma replace_at_shrinks :
  forall a old new s out rest,
    replace_at (a :: old) new s = Some (out, rest) -> length rest < length s.
Proof.
  intros a old new s out rest H. unfold replace_at in H.
  destruct (startswith (a :: old) s) eqn:E; [|discriminate].
  inversion H; subst. destruct s as [|b s]; [discriminate|].
  simpl. rewrite length_skipn. lia.
Qed.

(** Replacing one character is a character-by-character substitution. *)
Lemma replace_char :
  forall c r s,
    replace [c] r s = flat_map (fun x => if Ascii.eqb c x then r else [x]) s.
Proof.
  intros c r s. unfold replace.
  induction s as [|x s IH].
  - reflexivity.
  - rewrite scan_eq by apply replace_at_shrinks.
    unfold replace_at at 1. cbn [startswith length skipn flat_map].
    rewrite andb_true_r.
    destruct (Ascii.eqb c x); now rewrite IH.
Qed.

(** A text without an occurrence of [old] is left as it is. *)
Lemma replace_absent :
  forall old new s, contains old s = false -> replace old new s = s.
Proof.
  intros [|a old] new s H.
  - destruct s; simpl in H; discriminate.
  - unfold replace. apply scan_no_match.
    + apply replace_at_shrinks.
    + intros k. unfold replace_at. now rewrite contains_skipn.
Qed.

Lemma replace_char_absent :
  forall c r s, ~ In c s -> replace [c] r s = s.
Proof.
  intros c r s H. unfold replace. apply scan_no_match.
  - apply replace_at_shrinks.
  - intros k. unfold replace_at.
    rewrite startswith_head_absent; [reflexivity|].
    now apply skipn_not_in.
Qed.

(** ** The lazy group and [re.sub] *)

(** A successful group is a verbatim piece of the text, followed by the
    closing delimiter. *)
Lemma lazy_group_split :
  forall close s g rest,
    lazy_group close s = Some (g, rest) ->
    s = g ++ close ++ rest /\ g <> [] /\ ~ In newline g.
Proof.
  intros close. induction s as [|c s IH]; intros g rest H; [discriminate|].
  simpl in H. destruct (Ascii.eqb c newline) eqn:Ec; [discriminate|].
  apply Ascii.eqb_neq in Ec.
  destruct (startswith close s) eqn:Es.
  - inversion H; subst. apply startswith_split in Es.
    repeat split.
    + simpl. now rewrite <- Es.
    + discriminate.
    + intros [Hc|[]]. now apply Ec.
  - destruct (lazy_group close s) as [[g' rest']|] eqn:El; [|discriminate].
    inversion H; subst. destruct (IH _ _ eq_refl) as (Hs & _ & Hn).
    repeat split.
    + simpl. now rewrite <- Hs.
    + discriminate.
    + intros [Hc|Hin]; [now apply Ec | now apply Hn].
Qed.

Lemma match_delimited_split :
  forall open close s g rest,
    match_delimited open close s = Some (g, rest) ->
    s = open ++ g ++ close ++ rest /\ g <> [] /\ ~ In newline g.
Proof.
  intros open close s g rest H. unfold match_delimited in H.
  destruct (startswith open s) eqn:E; [|discriminate].
  apply startswith_split in E. apply lazy_group_split in H.
  destruct H as (Hs & Hg & Hn). repeat split; auto.
  rewrite E at 1. now rewrite Hs.
Qed.

Lemma sub_at_shrinks :
  forall open close pre post s out rest,
    sub_at open close pre post s = Some (out, rest) ->
    length rest < length s.
Proof.
  intros open close pre post s out rest H. unfold sub_at in H.
  destruct (match_delimited open close s) as [[g r]|] eqn:E; [|discriminate].
  inversion H; subst. apply match_delimited_split in E.
  destruct E as (Hs & Hg & _). rewrite Hs. rewrite !length_app.
  destruct g; [congruence|]. simpl. lia.
Qed.

(** The equation of one [re.sub] pass. *)
Lemma re_sub_delimited_eq :
  forall open close pre post s,
    re_sub_delimited open close pre post s =
    match match_delimited open close s with
    | Some (g, rest) =>
        pre ++ g ++ post ++ re_sub_delimited open close pre post rest
    | None =>
        match s with
        | [] => []
        | c :: s' => c :: re_sub_delimited open close pre post s'
        end
    end.
Proof.
  intros open close pre post s. unfold re_sub_delimited.
  rewrite scan_eq by apply sub_at_shrinks.
  unfold sub_at.
  destruct (match_delimited open close s) as [[g rest]|]; [|reflexivity].
  now rewrite <- !app_assoc.
Qed.

(** A pass whose opening delimiter does not occur changes nothing. *)
Lemma re_sub_delimited_absent :
  forall a open close pre post s,
    ~ In a s -> re_sub_delimited (a :: open) close pre post s = s.
Proof.
  intros a open close pre post s H. unfold re_sub_delimited.
  apply scan_no_match.
  - apply sub_at_shrinks.
  - intros k. unfold sub_at, match_delimited.
    rewrite startswith_head_absent; [reflexivity|].
    now apply skipn_not_in.
Qed.

(** ** The translator *)

(** One pass over a text cuts it into copied characters and delimited
    spans; the output keeps every copied character and wraps the content of
    every span, character for character. *)
Lemma re_sub_delimited_segments :
  forall open close pre post s,
  exists segs,
    s = flat_map (seg_source open close) segs /\
    re_sub_delimited open close pre post s =
    flat_map (seg_output pre post) segs.
Proof.
  intros open close pre post s.
  remember (length s) as n eqn:Hn.
  revert s Hn. induction n as [n IH] using lt_wf_ind. intros s Hn.
  rewrite re_sub_delimited_eq.
  destruct (match_delimited open close s) as [[g rest]|] eqn:E.
  - apply match_delimited_split in E. destruct E as (Hs & Hg & _).
    assert (Hlt : length rest < n).
    { rewrite Hn, Hs, !length_app. destruct g; [congruence|]. simpl. lia. }
    destruct (IH _ Hlt rest eq_refl) as (segs & Hsrc & Hout).
    exists (Span g :: segs). simpl. split.
    + rewrite Hs at 1. rewrite Hsrc at 1. now rewrite <- !app_assoc.
    + rewrite Hout. now rewrite <- !app_assoc.
  - destruct s as [|c s'].
    + exists []. now split.
    + assert (Hlt : length s' < n) by (rewrite Hn; simpl; lia).
      destruct (IH _ Hlt s' eq_refl) as (segs & Hsrc & Hout).
      exists (Copied c :: segs). simpl. split; congruence.
Qed.

(** The translator on a few lines: a delimiter without a partner stays, a
    line feed between two delimiters prevents the match, and a third star
    becomes part of the bold content. *)
Example convert_unmatched_delimiter :
  convert_markdown_to_latex_str (lit "3 * 4 and a_b") = lit "3 * 4 and a_b".
Proof. vm_compute. reflexivity. Qed.

Example convert_line_feed_blocks :
  convert_markdown_to_latex_str (lit "*a" ++ [newline] ++ lit "b*")
  = lit "*a" ++ [newline] ++ lit "b*".
Proof. vm_compute. reflexivity. Qed.

Example convert_three_stars :
  convert_markdown_to_latex_str (lit "***a**")
  = TEXTBFSTART ++ lit "*a" ++ TEXTBFEND.
Proof. vm_compute. reflexivity. Qed.

Example convert_shortest_span :
  convert_markdown_to_latex_str (lit "`a` and `b`")
  = TEXTTTSTART ++ lit "a" ++ TEXTTTEND ++ lit " and "
    ++ TEXTTTSTART ++ lit "b" ++ TEXTTTEND.
Proof. vm_compute. reflexivity. Qed.

(** C1. The round-trip scenario: the bold, italic and code spans and the
    two reserved characters of the sample line come out as LaTeX commands
    and escapes, and no placeholder marker is left. *)
Theorem round_trip_scenario :
  exists out,
    escape_latex
      (convert_markdown_to_latex
         (PStr (lit "**Bold** and _italic_ and `code` with 50% & more")))
      true = PStr out /\
    contains (lit "\textbf{Bold}") out = true /\
    contains (lit "\textit{italic}") out = true /\
    contains (lit "\texttt{code}") out = true /\
    contains (lit "\%") out = true /\
    contains (lit "\&") out = true /\
    existsb (fun p => contains p out) placeholders = false.
Proof.
  exists (lit "\textbf{Bold} and \textit{italic} and \texttt{code} with 50\% \& more").
  repeat split; vm_compute; reflexivity.
Qed.

(** C2, as stated, fails: on the claim's own example the italic pass runs
    over the content of the bold placeholder and nests its placeholder
    there. *)
Lemma nested_markers_counterexample :
  convert_markdown_to_latex_str (lit "**a _b_ c**")
  <> TEXTBFSTART ++ lit "a _b_ c" ++ TEXTBFEND
  /\ convert_markdown_to_latex_str (lit "**a _b_ c**")
     = TEXTBFSTART ++ lit "a " ++ TEXTITSTART ++ lit "b" ++ TEXTITEND
       ++ lit " c" ++ TEXTBFEND.
Proof.
  split; vm_compute; [discriminate | reflexivity].
Qed.

(** C2, amended.  Each of the four passes wraps the content of the spans
    it matches verbatim and does not look into that content again; the
    passes, however, run one after the other over the whole text, so a
    later pass does rewrite markers inside the content of a placeholder
    that an earlier pass emitted. *)
Theorem passes_wrap_verbatim_and_later_passes_rescan :
  (forall open close pre post s,
    exists segs,
      s = flat_map (seg_source open close) segs /\
      re_sub_delimited open close pre post s =
      flat_map (seg_output pre post) segs)
  /\ (forall s,
       convert_markdown_to_latex_str s =
       sub_code (sub_italic (sub_bold1 (sub_bold2 s))))
  /\ sub_bold2 (lit "**a _b_ c**")
     = TEXTBFSTART ++ lit "a _b_ c" ++ TEXTBFEND
  /\ convert_markdown_to_latex_str (lit "**a _b_ c**")
     = TEXTBFSTART ++ lit "a " ++ TEXTITSTART ++ lit "b" ++ TEXTITEND
       ++ lit " c" ++ TEXTBFEND.
Proof.
  split; [apply re_sub_delimited_segments|].
  split; [reflexivity|].
  split; vm_compute; reflexivity.
Qed.

(** C10. Raw-mode escaping is not idempotent: the backslash of an escape
    sequence is kept and the reserved character after it is escaped again. *)
Theorem escape_latex_raw_not_idempotent :
  escape_latex_str (lit "%") false = lit "\%" /\
  escape_latex_str (lit "\%") false = lit "\\%" /\
  exists s,
    escape_latex_str (escape_latex_str s false) false
    <> escape_latex_str s false.
Proof.
  split; [vm_compute; reflexivity|].
  split; [vm_compute; reflexivity|].
  exists (lit "%"). vm_compute. discriminate.
Qed.

(** ** The sanitizer on plain text *)

Lemma free_of_not_in :
  forall cs s c, free_of cs s = true -> In c cs -> ~ In c s.
Proof.
  intros cs s c H Hc Hs. unfold free_of in H.
  rewrite forallb_forall in H. specialize (H c Hs).
  apply negb_true_iff in H. unfold has_char in H.
  assert (existsb (Ascii.eqb c) cs = true) as E.
  { apply existsb_exists. exists c. split; [exact Hc | apply Ascii.eqb_refl]. }
  congruence.
Qed.

(** Without a marker character the translator has nothing to do. *)
Lemma convert_markdown_without_markers :
  forall s,
    free_of marker_chars s = true -> convert_markdown_to_latex_str s = s.
Proof.
  intros s H.
  assert (Hstar : ~ In "*"%char s)
    by (apply (free_of_not_in _ _ _ H); simpl; tauto).
  assert (Hund : ~ In "_"%char s)
    by (apply (free_of_not_in _ _ _ H); simpl; tauto).
  assert (Htick : ~ In "`"%char s)
    by (apply (free_of_not_in _ _ _ H); simpl; tauto).
  unfold convert_markdown_to_latex_str, sub_bold2, sub_bold1, sub_italic,
    sub_code.
  cbn [lit list_ascii_of_string].
  rewrite !(@re_sub_delimited_absent _ _ _ _ _ _ Hstar).
  rewrite (@re_sub_delimited_absent _ _ _ _ _ _ Hund).
  now rewrite (@re_sub_delimited_absent _ _ _ _ _ _ Htick).
Qed.

(** Without a reserved character the six replacements of the preserving
    mode change nothing. *)
Lemma escape_chars_without_reserved :
  forall s,
    free_of reserved_chars s = true ->
    escape_chars (replacements true) s = s.
Proof.
  intros s H.
  unfold escape_chars, replacements.
  cbn [negb app fold_left fst snd lit list_ascii_of_string].
  assert (Hfree : forall c, In c reserved_chars -> ~ In c s)
    by (intros c; apply free_of_not_in; exact H).
  repeat match goal with
         | |- context [replace [?c] ?r s] =>
             rewrite (@replace_char_absent c r s)
               by (apply Hfree; simpl; tauto)
         end.
  reflexivity.
Qed.

(** Without a placeholder marker nothing is resolved. *)
Lemma resolve_placeholders_absent :
  forall s,
    (forall p, In p placeholders -> contains p s = false) ->
    resolve_placeholders s = s.
Proof.
  intros s H. unfold resolve_placeholders.
  repeat match goal with
         | |- context [replace ?old ?new s] =>
             rewrite (@replace_absent old new s)
               by (apply H; unfold placeholders; simpl; tauto)
         end.
  reflexivity.
Qed.

(** C5, as stated, fails: a text made of a placeholder marker has no marker
    character and no reserved character, and sanitizing turns it into a
    LaTeX command. *)
Lemma sanitize_placeholder_text_counterexample :
  free_of marker_chars TEXTBFSTART = true /\
  free_of reserved_chars TEXTBFSTART = true /\
  _escape_data (PStr TEXTBFSTART) = PStr (lit "\textbf{") /\
  _escape_data (PStr TEXTBFSTART) <> PStr TEXTBFSTART.
Proof.
  repeat split; try (vm_compute; reflexivity).
  vm_compute. discriminate.
Qed.

(** C5, amended.  A string with no marker character, no reserved character
    and no occurrence of a placeholder marker is returned unchanged by the
    sanitizer. *)
Theorem sanitize_plain_text_unchanged :
  forall s,
    free_of marker_chars s = true ->
    free_of reserved_chars s = true ->
    (forall p, In p placeholders -> contains p s = false) ->
    _escape_data (PStr s) = PStr s.
Proof.
  intros s Hm Hr Hp.
  cbn [_escape_data convert_markdown_to_latex escape_latex].
  unfold escape_latex_str.
  rewrite convert_markdown_without_markers by exact Hm.
  rewrite escape_chars_without_reserved by exact Hr.
  now rewrite resolve_placeholders_absent.
Qed.

Lemma sanitize_plain_text_unchanged_witness :
  _escape_data (PStr (lit "Senior Engineer, 2019-2024 (Berlin)"))
  = PStr (lit "Senior Engineer, 2019-2024 (Berlin)").
Proof.
  apply sanitize_plain_text_unchanged.
  - vm_compute; reflexivity.
  - vm_compute; reflexivity.
  - intros p Hp. unfold placeholders in Hp. simpl in Hp.
    repeat (destruct Hp as [Hp|Hp]; [subst p; vm_compute; reflexivity|]).
    contradiction.
Defined.

(** ** Dicts and the recursive sanitizer *)

Lemma str_eqb_eq : forall a b, str_eqb a b = true <-> a = b.
Proof.
  intros a b. unfold str_eqb.
  destruct (list_eq_dec ascii_dec a b); split; congruence.
Qed.

Lemma str_eqb_refl : forall a, str_eqb a a = true.
Proof. intros a. now apply str_eqb_eq. Qed.

Lemma str_eqb_neq : forall a b, a <> b -> str_eqb a b = false.
Proof.
  intros a b H. destruct (str_eqb a b) eqn:E; [|reflexivity].
  apply str_eqb_eq in E. contradiction.
Qed.

(** Setting a key that is not there appends it. *)
Lemma dict_set_fresh :
  forall d k v, ~ In k (dict_keys d) -> dict_set d k v = d ++ [(k, v)].
Proof.
  induction d as [|[k' v'] d IH]; intros k v H; simpl; [reflexivity|].
  simpl in H. rewrite str_eqb_neq by (intros ->; apply H; now left).
  f_equal. apply IH. intros Hin. apply H. now right.
Qed.

Lemma dict_of_items_from :
  forall items acc,
    NoDup (dict_keys (acc ++ items)) ->
    fold_left (fun d kv => dict_set d (fst kv) (snd kv)) items acc
    = acc ++ items.
Proof.
  induction items as [|[k v] items IH]; intros acc H; simpl.
  - now rewrite app_nil_r.
  - rewrite dict_set_fresh.
    + rewrite IH; rewrite <- app_assoc; [reflexivity | exact H].
    + unfold dict_keys in H. rewrite map_app in H. simpl in H.
      apply NoDup_remove_2 in H. intros Hin. apply H.
      apply in_or_app. now left.
Qed.

(** Rebuilding a dict from its own items gives the items back, in order. *)
Lemma dict_of_items_nodup :
  forall items, NoDup (dict_keys items) -> dict_of_items items = items.
Proof.
  intros items H. unfold dict_of_items. now rewrite dict_of_items_from.
Qed.

Lemma dict_keys_map_values :
  forall (f : pyval -> pyval) items,
    dict_keys (map (fun kv => let '(key, value) := kv in (key, f value)) items)
    = dict_keys items.
Proof.
  intros f items. unfold dict_keys. rewrite map_map.
  apply map_ext. now intros [k v].
Qed.

(** On a dict the sanitizer rewrites the values and nothing else. *)
Lemma escape_data_dict :
  forall items,
    NoDup (dict_keys items) ->
    _escape_data (PDict items)
    = PDict (map (fun kv => let '(key, value) := kv in
                            (key, _escape_data value)) items).
Proof.
  intros items H. cbn [_escape_data]. f_equal.
  apply dict_of_items_nodup. now rewrite dict_keys_map_values.
Qed.

Lemma dict_wf_list :
  forall l, dict_wf (PList l) <-> Forall dict_wf l.
Proof.
  intros l. cbn [dict_wf]. induction l as [|x l IH].
  - split; [constructor | trivial].
  - split.
    + intros [Hx Hl]. constructor; [exact Hx | now apply IH].
    + intros H. inversion H; subst. split; [assumption | now apply IH].
Qed.

Lemma dict_wf_dict :
  forall items,
    dict_wf (PDict items) <->
    NoDup (dict_keys items) /\ Forall (fun kv => dict_wf (snd kv)) items.
Proof.
  intros items. cbn [dict_wf].
  apply and_iff_compat_l.
  induction items as [|kv items IH].
  - split; [constructor | trivial].
  - split.
    + intros [Hx Hl]. constructor; [exact Hx | now apply IH].
    + intros H. inversion H; subst. split; [assumption | now apply IH].
Qed.

(** The sanitizer changes the text of strings and nothing else, at every
    depth. *)
Lemma escape_data_shape :
  forall data, dict_wf data -> shape (_escape_data data) = shape data.
Proof.
  induction data as [| | | | | s | l IH | items IH] using pyval_nested_ind;
    intros Hwf; try reflexivity.
  - apply dict_wf_list in Hwf. cbn [_escape_data shape]. f_equal.
    rewrite map_map. apply map_ext_in. intros x Hx.
    rewrite Forall_forall in IH, Hwf. apply IH; auto.
  - apply dict_wf_dict in Hwf. destruct Hwf as [Hkeys Hvals].
    rewrite escape_data_dict by exact Hkeys. cbn [shape]. f_equal.
    rewrite map_map. apply map_ext_in. intros [k x] Hx.
    rewrite Forall_forall in IH, Hvals. f_equal.
    apply (IH (k, x) Hx). apply (Hvals (k, x) Hx).
Qed.

(** C6. The sanitizer keeps the structure: a mapping gives a mapping with
    the same keys in the same places and each value sanitized; a sequence
    gives a sequence of the same length with each element sanitized in its
    place; a string is translated and then escaped in preserving mode; any
    other value is returned as it is.  At every depth only the text of
    strings changes. *)
Theorem escape_data_structure_preserving :
  forall data,
    dict_wf data ->
    match data with
    | PDict items =>
        exists items',
          _escape_data data = PDict items' /\
          dict_keys items' = dict_keys items /\
          length items' = length items /\
          (forall i key value,
              nth_error items i = Some (key, value) ->
              nth_error items' i = Some (key, _escape_data value))
    | PList l =>
        exists l',
          _escape_data data = PList l' /\
          length l' = length l /\
          (forall i item,
              nth_error l i = Some item ->
              nth_error l' i = Some (_escape_data item))
    | PStr s =>
        _escape_data data
        = PStr (escape_latex_str (convert_markdown_to_latex_str s) true)
        /\ _escape_data data
           = escape_latex (convert_markdown_to_latex (PStr s)) true
    | _ => _escape_data data = data
    end
    /\ shape (_escape_data data) = shape data.
Proof.
  intros data Hwf. split; [|now apply escape_data_shape].
  destruct data; try reflexivity.
  - split; reflexivity.
  - exists (map _escape_data l). split; [reflexivity|].
    split; [apply length_map|].
    intros i item Hi. now rewrite nth_error_map, Hi.
  - apply dict_wf_dict in Hwf. destruct Hwf as [Hkeys _].
    rewrite escape_data_dict by exact Hkeys.
    eexists. split; [reflexivity|].
    split; [apply dict_keys_map_values|].
    split; [apply length_map|].
    intros i key value Hi. now rewrite nth_error_map, Hi.
Qed.

Lemma escape_data_structure_preserving_witness :
  dict_wf experience_data /\
  (exists items',
    _escape_data experience_data = PDict items' /\
    dict_keys items' = [lit "experience"] /\
    length items' = 1 /\
    (forall i key value,
        nth_error
          [ (lit "experience",
             PList
               [ PDict [ (lit "title", PStr (lit "*Lead* engineer"));
                         (lit "years", PInt 3) ];
                 PDict [ (lit "title", PStr (lit "R&D intern"));
                         (lit "remote", PBool true) ] ]) ] i
        = Some (key, value) ->
        nth_error items' i = Some (key, _escape_data value)))
  /\ shape (_escape_data experience_data) = shape experience_data.
Proof.
  assert (Hwf : dict_wf experience_data).
  { simpl. repeat constructor; simpl; intuition discriminate. }
  split; [exact Hwf|].
  exact (escape_data_structure_preserving experience_data Hwf).
Defined.

(** The nested-structure scenario, evaluated: two entries in, two entries
    out, in the same order, each string field sanitized on its own. *)
Example escape_data_experience :
  _escape_data experience_data =
  PDict
    [ (lit "experience",
       PList
         [ PDict [ (lit "title", PStr (lit "\textbf{Lead} engineer"));
                   (lit "years", PInt 3) ];
           PDict [ (lit "title", PStr (lit "R\&D intern"));
                   (lit "remote", PBool true) ] ]) ].
Proof. vm_compute. reflexivity. Qed.

(** ** The directory loader *)

Lemma load_sections_absent :
  forall entries todo data,
    (forall section, In section todo ->
                     entries (section ++ lit ".yaml") = None) ->
    load_sections entries todo data = Return data.
Proof.
  intros entries todo. induction todo as [|section todo IH]; intros data H.
  - reflexivity.
  - cbn [load_sections]. rewrite (H section) by now left.
    apply IH. intros s Hs. apply H. now right.
Qed.

(** C9. A directory whose only section files are [personal.yaml] and
    [skills.yaml] loads as a mapping with exactly the keys [personal] and
    [skills], bound to what the two files hold; no other section has a
    key. *)
Theorem load_directory_personal_and_skills :
  forall entries personal skills,
    entries (lit "personal.yaml") = Some (Return personal) ->
    entries (lit "skills.yaml") = Some (Return skills) ->
    (forall section,
        In section [lit "config"; lit "experience"; lit "projects";
                    lit "education"; lit "research"] ->
        entries (section ++ lit ".yaml") = None) ->
    exists data,
      load_resume_data (Directory entries) = Return (PDict data) /\
      dict_keys data = [lit "personal"; lit "skills"] /\
      dict_get data (lit "personal") = Some personal /\
      dict_get data (lit "skills") = Some skills /\
      (forall key,
          key <> lit "personal" -> key <> lit "skills" ->
          dict_get data key = None).
Proof.
  intros entries personal skills Hp Hs Habsent.
  exists [(lit "personal", personal); (lit "skills", skills)].
  split.
  - unfold load_resume_data, _load_from_directory, sections.
    cbn [load_sections].
    change (lit "personal" ++ lit ".yaml") with (lit "personal.yaml").
    change (lit "skills" ++ lit ".yaml") with (lit "skills.yaml").
    rewrite Hp, Hs.
    rewrite !(Habsent _) by (simpl; tauto).
    reflexivity.
  - split; [reflexivity|]. split; [reflexivity|]. split; [reflexivity|].
    intros key Hkp Hks. cbn [dict_get].
    now rewrite (str_eqb_neq Hkp), (str_eqb_neq Hks).
Qed.

Lemma load_directory_personal_and_skills_witness :
  exists data,
    load_resume_data (Directory two_section_directory) = Return (PDict data) /\
    dict_keys data = [lit "personal"; lit "skills"] /\
    dict_get data (lit "personal")
    = Some (PDict [(lit "name", PStr (lit "Ada"))]) /\
    dict_get data (lit "skills")
    = Some (PList [PStr (lit "C#"); PStr (lit "Rocq")]) /\
    (forall key,
        key <> lit "personal" -> key <> lit "skills" ->
        dict_get data key = None).
Proof.
  apply (load_directory_personal_and_skills two_section_directory).
  - vm_compute; reflexivity.
  - vm_compute; reflexivity.
  - intros section H. simpl in H.
    repeat (destruct H as [H|H]; [subst section; vm_compute; reflexivity|]).
    contradiction.
Defined.

(** ** The compiler stage and its two symbolic links *)

(** The [finally] block never fails and leaves no symbolic link behind. *)
Lemma remove_symlinks_clear :
  forall st,
  exists st',
    (remove_symlink cls_symlink ;; remove_symlink fonts_symlink) st
    = (Return tt, st') /\
    forall p, fst (is_symlink p st') = Return false.
Proof.
  intros [[c f] out err].
  destruct c, f; eexists; (split; [reflexivity|]); intros []; reflexivity.
Qed.

(** Whatever the body and the handlers do, the state after a [try]
    statement is the state the [finally] block leaves. *)
Lemma try_except_finally_state :
  forall A (body : M A) handler final st,
    snd (try_except_finally body handler final st)
    = snd (final (snd (try_except body handler st))).
Proof.
  intros A body handler final st. unfold try_except_finally.
  destruct (try_except body handler st) as [r st1]. simpl.
  destruct (final st1) as [[u|e] st2]; reflexivity.
Qed.

(** What [if not p.exists(): p.symlink_to(...)] leaves at [p]: a link is
    made where there was nothing, and nothing else is touched. *)
Lemma ensure_symlink_files :
  forall w p st,
    files (snd (ensure_symlink w p st)) =
    match node_at p (files st) with
    | Absent => set_node p (Symlink (asset_exists w p)) (files st)
    | _ => files st
    end.
Proof.
  intros w p st. unfold ensure_symlink, bind, path_exists, symlink_to.
  destruct (node_at p (files st)) as [|[|]|] eqn:E; simpl;
    rewrite ?E; reflexivity.
Qed.

(** C7. Once the LaTeX file is written, every run of [compile_latex],
    returning [True], returning [False] or raising, ends with neither of the
    two paths being a symbolic link; before the compiler runs a link is
    made only where the path was absent. *)
Theorem compile_latex_symlink_cleanup :
  forall w tex_content output_name st,
    write_file w (output_dir w ++ lit "/" ++ output_name ++ lit ".tex")
               tex_content = None ->
    (forall p,
        fst (is_symlink p (snd (compile_latex w tex_content output_name st)))
        = Return false)
    /\ (forall p st0,
           files (snd (ensure_symlink w p st0)) =
           match node_at p (files st0) with
           | Absent => set_node p (Symlink (asset_exists w p)) (files st0)
           | _ => files st0
           end).
Proof.
  intros w tex_content output_name st Hwrite.
  split; [|intros p st0; apply ensure_symlink_files].
  intros p. unfold compile_latex. rewrite Hwrite.
  unfold bind at 1. unfold print at 1.
  rewrite try_except_finally_state.
  match goal with
  | |- context [snd (_ (snd ?x))] =>
      destruct (remove_symlinks_clear (snd x)) as (st' & Hfin & Hclear)
  end.
  rewrite Hfin. apply Hclear.
Qed.

Lemma compile_latex_symlink_cleanup_witness :
  (forall p,
      fst (is_symlink p
             (snd (compile_latex failing_compiler_world
                     (lit "\documentclass{awesome-cv}") (lit "resume")
                     dangling_state)))
      = Return false)
  /\ (forall p st0,
         files (snd (ensure_symlink failing_compiler_world p st0)) =
         match node_at p (files st0) with
         | Absent =>
             set_node p (Symlink (asset_exists failing_compiler_world p))
                      (files st0)
         | _ => files st0
         end).
Proof.
  apply (compile_latex_symlink_cleanup failing_compiler_world).
  reflexivity.
Defined.

(** The three ways out of [compile_latex], each ending without links. *)
Example compile_latex_returns_true :
  let r := compile_latex fair_world (lit "\documentclass{awesome-cv}")
                         (lit "resume") clean_state in
  fst r = Return true /\
  files (snd r) = {| cls_node := Absent; fonts_node := Absent |}.
Proof. vm_compute. split; reflexivity. Qed.

Example compile_latex_returns_false :
  let r := compile_latex failing_compiler_world
                         (lit "\documentclass{awesome-cv}")
                         (lit "resume") clean_state in
  fst r = Return false /\
  files (snd r) = {| cls_node := Absent; fonts_node := Absent |}.
Proof. vm_compute. split; reflexivity. Qed.

Example compile_latex_raises :
  let r := compile_latex fair_world (lit "\documentclass{awesome-cv}")
                         (lit "resume") dangling_state in
  fst r = Raise FileExistsError /\
  files (snd r) = {| cls_node := Absent; fonts_node := Absent |}.
Proof. vm_compute. split; reflexivity. Qed.

(** ** The orchestrator *)

(** The load stage turns every [Exception] into [False]. *)
Lemma generate_catches_load_errors :
  forall w e template_name output_name st,
    is_Exception e = true ->
    fst (generate w (File (Raise e)) template_name output_name st)
    = Return false.
Proof.
  intros w e template_name output_name st He.
  unfold generate, bind, print, try_except, lift, except_Exception.
  simpl. rewrite He. reflexivity.
Qed.

(** The render stage turns every [Exception] into [False]. *)
Lemma generate_catches_render_errors :
  forall w data e template_name output_name st,
    is_Exception e = true ->
    jinja_render w template_name (_escape_data data) = Raise e ->
    fst (generate w (File (Return data)) template_name output_name st)
    = Return false.
Proof.
  intros w data e template_name output_name st He Hr.
  unfold generate, bind, print, try_except, lift, except_Exception,
    render_template.
  simpl. rewrite Hr, He. reflexivity.
Qed.

(** The exit status is 0 exactly when [generate] returns [True]. *)
Lemma main_exit_status :
  forall w yaml_file template_name output_name st,
    (fst (main w yaml_file template_name output_name st) = 0%Z <->
     fst (generate w yaml_file template_name output_name st) = Return true)
    /\ (fst (main w yaml_file template_name output_name st) = 0%Z \/
        fst (main w yaml_file template_name output_name st) = 1%Z).
Proof.
  intros w yaml_file template_name output_name st. unfold main.
  destruct (generate w yaml_file template_name output_name st)
    as [[[|]|e] st']; simpl; split;
    try (split; intros H; (reflexivity || discriminate));
    (now left) || (now right).
Qed.

(** C8. The compile stage does not catch what the other two stages catch:
    an exception other than [CalledProcessError] and [FileNotFoundError]
    inside its [try], or any exception while the LaTeX file is written,
    leaves [generate] as an exception instead of [False].  The first run has
    a dangling [awesome-cv.cls] link in the output directory, the second an
    output name inside a directory that does not exist. *)
Theorem generate_propagates_compile_stage_exceptions :
  fst (generate fair_world (Directory two_section_directory)
                (lit "awesome-cv.tex") (lit "resume") dangling_state)
  = Raise FileExistsError
  /\ fst (generate missing_subdir_world (Directory two_section_directory)
                   (lit "awesome-cv.tex") (lit "drafts/resume") clean_state)
     = Raise FileNotFoundError
  /\ fst (main fair_world (Directory two_section_directory)
               (lit "awesome-cv.tex") (lit "resume") dangling_state) = 1%Z.
Proof.
  repeat split; vm_compute; reflexivity.
Qed.

(** ** The replacement loop of the escaper *)

(** The substitution one single-character [replace] performs. *)
Lemma flat_map_flat_map :
  forall (f g : ascii -> str) s,
    flat_map g (flat_map f s) = flat_map (fun x => flat_map g (f x)) s.
Proof.
  intros f g. induction s as [|x s IH]; simpl; [reflexivity|].
  now rewrite flat_map_app, IH.
Qed.

Lemma flat_map_untouched :
  forall c r s,
    has_char c s = false ->
    flat_map (fun x => if Ascii.eqb c x then r else [x]) s = s.
Proof.
  intros c r. induction s as [|x s IH]; intros H; simpl; [reflexivity|].
  unfold has_char in H. simpl in H. apply orb_false_iff in H.
  destruct H as [Hx Hs]. rewrite Hx. simpl. f_equal. now apply IH.
Qed.

(** Two replacements of different characters commute when neither
    replacement text holds the other character. *)
Lemma replace_char_commute :
  forall c1 r1 c2 r2 s,
    Ascii.eqb c1 c2 = false ->
    has_char c2 r1 = false ->
    has_char c1 r2 = false ->
    replace [c2] r2 (replace [c1] r1 s) = replace [c1] r1 (replace [c2] r2 s).
Proof.
  intros c1 r1 c2 r2 s Hne H21 H12.
  rewrite !replace_char, !flat_map_flat_map.
  apply flat_map_ext. intros x.
  destruct (Ascii.eqb c1 x) eqn:E1; destruct (Ascii.eqb c2 x) eqn:E2.
  - apply Ascii.eqb_eq in E1, E2. subst.
    rewrite Ascii.eqb_refl in Hne. discriminate.
  - rewrite (@flat_map_untouched c2 r2 r1 H21).
    simpl. now rewrite E1, app_nil_r.
  - rewrite (@flat_map_untouched c1 r1 r2 H12).
    simpl. now rewrite E2, app_nil_r.
  - simpl. now rewrite E1, E2.
Qed.

(** A loop whose steps commute pairwise does not depend on their order. *)
Lemma fold_left_permutation :
  forall (A B : Type) (f : A -> B -> A) l l',
    Permutation l l' ->
    (forall x y a, In x l -> In y l -> f (f a x) y = f (f a y) x) ->
    forall a, fold_left f l a = fold_left f l' a.
Proof.
  intros A B f l l' HP. induction HP as [|x l l' HP IH|x y l|l l' l'' H1 IH1 H2 IH2];
    intros Hc a; simpl.
  - reflexivity.
  - apply IH. intros u v b Hu Hv. apply Hc; now right.
  - f_equal. apply Hc; simpl; tauto.
  - rewrite IH1 by exact Hc. apply IH2.
    intros u v b Hu Hv.
    apply Hc; eapply Permutation_in; try eassumption;
      now apply Permutation_sym.
Qed.

(** The six replacements of the preserving mode commute pairwise. *)
Lemma reserved_replacements_commute :
  forall x y s,
    In x (replacements true) -> In y (replacements true) ->
    replace (fst y) (snd y) (replace (fst x) (snd x) s)
    = replace (fst x) (snd x) (replace (fst y) (snd y) s).
Proof.
  intros x y s Hx Hy. unfold replacements in Hx, Hy.
  cbn [negb app In] in Hx, Hy.
  repeat (destruct Hx as [Hx|Hx]; [subst x|]); try contradiction;
    repeat (destruct Hy as [Hy|Hy]; [subst y|]); try contradiction;
    cbn [fst snd lit list_ascii_of_string];
    first [ reflexivity
          | apply replace_char_commute; vm_compute; reflexivity ].
Qed.

(** C3. The raw mode breaks the order independence the table is written
    for.  The table replaces [~] by [\textasciitilde{}] and [^] by
    [\textasciicircum{}], and the preserving mode gives just that; in raw
    mode the loop goes on to the brace entries and escapes the braces it has
    just written.  With the brace entries first the same table gives the
    text of the entry, so the order of the replacements matters. *)
Theorem raw_mode_escapes_its_own_braces :
  In (lit "~", lit "\textasciitilde{}") (replacements false) /\
  In (lit "^", lit "\textasciicircum{}") (replacements false) /\
  escape_latex_str (lit "~") true = lit "\textasciitilde{}" /\
  escape_latex_str (lit "^") true = lit "\textasciicircum{}" /\
  escape_latex_str (lit "~") false = lit "\textasciitilde\{\}" /\
  escape_latex_str (lit "^") false = lit "\textasciicircum\{\}" /\
  Permutation (rev (replacements false)) (replacements false) /\
  escape_chars (rev (replacements false)) (lit "~") = lit "\textasciitilde{}" /\
  escape_chars (replacements false) (lit "~") = lit "\textasciitilde\{\}" /\
  escape_chars (rev (replacements false)) (lit "~")
  <> escape_chars (replacements false) (lit "~").
Proof.
  split; [vm_compute; tauto|].
  split; [vm_compute; tauto|].
  repeat (split; [vm_compute; reflexivity|]).
  split; [apply Permutation_sym, Permutation_rev|].
  split; [vm_compute; reflexivity|].
  split; [vm_compute; reflexivity|].
  vm_compute. discriminate.
Qed.

(** X21. The replacements of the six reserved characters [& % $ # ~ ^],
    the whole table of the preserving mode, give the same text in whatever
    order they are applied. *)
Theorem reserved_replacement_order_irrelevant :
  forall table s,
    Permutation table (replacements true) ->
    escape_chars table s = escape_chars (replacements true) s.
Proof.
  intros table s HP. unfold escape_chars. symmetry.
  apply fold_left_permutation; [now apply Permutation_sym|].
  intros x y a Hx Hy. now apply reserved_replacements_commute.
Qed.

Lemma reserved_replacement_order_irrelevant_witness :
  escape_chars (rev (replacements true)) (lit "R&D: 50% of $5 ~ #1 ^2")
  = escape_chars (replacements true) (lit "R&D: 50% of $5 ~ #1 ^2").
Proof.
  apply reserved_replacement_order_irrelevant.
  apply Permutation_sym, Permutation_rev.
Defined.

(** ** Raw mode leaves no special character bare *)

(** The loop over a table of single-character keys works character by
    character. *)
Lemma escape_chars_pointwise :
  forall table,
    Forall (fun kv => exists c, fst kv = [c]) table ->
    forall s, escape_chars table s = flat_map (fun x => escape_chars table [x]) s.
Proof.
  unfold escape_chars.
  induction table as [|[k r] table IH]; intros Hkeys s.
  - simpl. induction s as [|x s IHs]; simpl; congruence.
  - inversion Hkeys as [|kv t [c Hc] Ht]; subst. simpl in Hc. subst k.
    cbn [fold_left fst snd].
    rewrite (IH Ht). rewrite replace_char, flat_map_flat_map.
    apply flat_map_ext. intros x.
    rewrite (IH Ht (replace [c] r [x])). rewrite replace_char.
    simpl. now rewrite app_nil_r.
Qed.

Lemma raw_table_single_keys :
  Forall (fun kv => exists c, fst kv = [c]) (replacements false).
Proof.
  unfold replacements. cbn [negb app].
  repeat (constructor; [eexists; reflexivity|]). constructor.
Qed.

Lemma escape_latex_raw_pointwise :
  forall s, escape_latex_str s false = flat_map raw_image s.
Proof.
  intros s. unfold escape_latex_str, raw_image.
  apply (escape_chars_pointwise raw_table_single_keys).
Qed.

Lemma escaped_app :
  forall a b, escaped a -> escaped b -> escaped (a ++ b).
Proof.
  intros a b Ha Hb. induction Ha; simpl.
  - exact Hb.
  - now apply escaped_plain.
  - now apply escaped_seq.
Qed.

(** What raw mode makes of one character is well escaped. *)
Lemma raw_image_escaped : forall c, escaped (raw_image c).
Proof.
  intros c. destruct c as [[] [] [] [] [] [] [] []]; vm_compute;
    repeat first [ apply escaped_nil
                 | apply escaped_seq; [simpl; tauto|]
                 | apply escaped_plain; [reflexivity|] ].
Qed.

(** In a well escaped text every special character comes right after a
    backslash, and [~] and [^] do not occur. *)
Lemma escaped_special_preceded :
  forall s,
    escaped s ->
    forall i c,
      nth_error s i = Some c -> is_special c = true ->
      c <> "~"%char /\ c <> "^"%char /\
      exists j, i = S j /\ nth_error s j = Some "\"%char.
Proof.
  intros s H. induction H as [|d s Hd Hs IH|d s Hd Hs IH]; intros i c Hi Hc.
  - destruct i; discriminate.
  - destruct i as [|i]; simpl in Hi.
    + inversion Hi; subst. congruence.
    + destruct (IH _ _ Hi Hc) as (H1 & H2 & j & -> & Hj).
      repeat split; auto. exists (S j). now split.
  - destruct i as [|[|i]]; simpl in Hi.
    + inversion Hi; subst. discriminate.
    + inversion Hi; subst. repeat split.
      * intros ->. simpl in Hd. intuition discriminate.
      * intros ->. simpl in Hd. intuition discriminate.
      * exists 0. now split.
    + destruct (IH _ _ Hi Hc) as (H1 & H2 & j & -> & Hj).
      repeat split; auto. exists (S (S j)). now split.
Qed.

(** C4. In raw mode the output holds no bare special character: it is the
    concatenation of what the escaper makes of each input character, and
    in it each of [& % $ # _ { }] stands only as the second character of an
    escape sequence the escaper wrote, while [~] and [^] are gone. *)
Theorem escape_latex_raw_no_bare_special :
  forall s,
    escaped (escape_latex_str s false) /\
    escape_latex_str s false = flat_map raw_image s /\
    Forall escaped (map raw_image s).
Proof.
  intros s. split; [|split].
  - rewrite escape_latex_raw_pointwise.
    induction s as [|x s IH]; simpl.
    + constructor.
    + apply escaped_app; [apply raw_image_escaped | exact IH].
  - apply escape_latex_raw_pointwise.
  - apply Forall_forall. intros r Hr. apply in_map_iff in Hr.
    destruct Hr as (x & <- & _). apply raw_image_escaped.
Qed.

(** * Further properties of the code *)

(** ** What a pass matches *)

(** The lazy group stops at the first closing delimiter that follows its
    first character. *)
Lemma lazy_group_shortest :
  forall close s g rest,
    lazy_group close s = Some (g, rest) ->
    forall k, 0 < k < length g -> startswith close (skipn k s) = false.
Proof.
  intros close. induction s as [|c s IH]; intros g rest H k Hk;
    [discriminate|].
  simpl in H. destruct (Ascii.eqb c newline); [discriminate|].
  destruct (startswith close s) eqn:Es.
  - inversion H; subst. simpl in Hk. lia.
  - destruct (lazy_group close s) as [[g' rest']|] eqn:El; [|discriminate].
    inversion H; subst. simpl in Hk.
    destruct k as [|[|k]]; [lia | exact Es |].
    change (skipn (S (S k)) (c :: s)) with (skipn (S k) s).
    apply (IH _ _ eq_refl). lia.
Qed.

(** X1. A match of a pass is the opening delimiter, a content that is not
    empty and has no line feed, and the closing delimiter; the content is
    the shortest possible: the closing delimiter does not occur earlier
    after its first character. *)
Theorem match_delimited_shortest_single_line :
  forall open close s g rest,
    match_delimited open close s = Some (g, rest) ->
    s = open ++ g ++ close ++ rest /\
    g <> [] /\ ~ In newline g /\
    forall k, 0 < k < length g ->
              startswith close (skipn (length open + k) s) = false.
Proof.
  intros open close s g rest H.
  destruct (match_delimited_split _ _ _ H) as (Hs & Hg & Hn).
  repeat split; auto.
  intros k Hk. unfold match_delimited in H.
  destruct (startswith open s); [|discriminate].
  rewrite Nat.add_comm, <- skipn_skipn.
  now apply (lazy_group_shortest _ _ H).
Qed.

Lemma match_delimited_shortest_single_line_witness :
  lit "**a* b** c" = lit "**" ++ lit "a* b" ++ lit "**" ++ lit " c" /\
  lit "a* b" <> [] /\ ~ In newline (lit "a* b") /\
  forall k, 0 < k < length (lit "a* b") ->
            startswith (lit "**")
                       (skipn (length (lit "**") + k) (lit "**a* b** c"))
            = false.
Proof.
  apply (@match_delimited_shortest_single_line
           (lit "**") (lit "**") (lit "**a* b** c") (lit "a* b") (lit " c")).
  vm_compute. reflexivity.
Defined.

(** X2. Every span a pass wraps is non-empty and lies on one line. *)
Theorem re_sub_delimited_spans_single_line :
  forall open close pre post s,
  exists segs,
    s = flat_map (seg_source open close) segs /\
    re_sub_delimited open close pre post s
    = flat_map (seg_output pre post) segs /\
    Forall span_ok segs.
Proof.
  intros open close pre post s.
  remember (length s) as n eqn:Hn.
  revert s Hn. induction n as [n IH] using lt_wf_ind. intros s Hn.
  rewrite re_sub_delimited_eq.
  destruct (match_delimited open close s) as [[g rest]|] eqn:E.
  - apply match_delimited_split in E. destruct E as (Hs & Hg & Hnl).
    assert (Hlt : length rest < n).
    { rewrite Hn, Hs, !length_app. destruct g; [congruence|]. simpl. lia. }
    destruct (IH _ Hlt rest eq_refl) as (segs & Hsrc & Hout & Hok).
    exists (Span g :: segs). simpl. repeat split.
    + rewrite Hs at 1. rewrite Hsrc at 1. now rewrite <- !app_assoc.
    + rewrite Hout. now rewrite <- !app_assoc.
    + constructor; [now split | exact Hok].
  - destruct s as [|c s'].
    + exists []. repeat split. constructor.
    + assert (Hlt : length s' < n) by (rewrite Hn; simpl; lia).
      destruct (IH _ Hlt s' eq_refl) as (segs & Hsrc & Hout & Hok).
      exists (Copied c :: segs). simpl. repeat split; try congruence.
      constructor; [exact I | exact Hok].
Qed.

(** ** Delimiters with and without a partner *)

Lemma skipn_exact : forall (a b : str), skipn (length a) (a ++ b) = b.
Proof. induction a as [|x a IH]; intros b; simpl; auto. Qed.

Lemma count_occ_skipn :
  forall (c : ascii) k s,
    count_occ ascii_dec (skipn k s) c <= count_occ ascii_dec s c.
Proof.
  intros c k s. rewrite <- (firstn_skipn k s) at 2.
  rewrite count_occ_app. lia.
Qed.

(** A pass finds nothing where its opening delimiter does not occur. *)
Lemma re_sub_delimited_no_open :
  forall open close pre post s,
    contains open s = false ->
    re_sub_delimited open close pre post s = s.
Proof.
  intros open close pre post s H. unfold re_sub_delimited.
  apply scan_no_match.
  - apply sub_at_shrinks.
  - intros k. unfold sub_at, match_delimited.
    now rewrite contains_skipn.
Qed.

Lemma contains_head_absent :
  forall a p s, ~ In a s -> contains (a :: p) s = false.
Proof.
  intros a p. induction s as [|b s IH]; intros H; [reflexivity|].
  cbn [contains]. rewrite startswith_head_absent by exact H.
  apply IH. intros Hin. apply H. now right.
Qed.

(** An occurrence cannot start in a text that lacks its first character. *)
Lemma contains_past_absent :
  forall a p u t,
    ~ In a u -> contains (a :: p) (u ++ t) = contains (a :: p) t.
Proof.
  intros a p. induction u as [|b u IH]; intros t H; [reflexivity|].
  cbn [app contains].
  assert (Hb : Ascii.eqb a b = false).
  { apply Ascii.eqb_neq. intros ->. apply H. now left. }
  cbn [startswith]. rewrite Hb. simpl.
  apply IH. intros Hin. apply H. now right.
Qed.

(** A delimiter character that occurs at most once has no partner. *)
Lemma re_sub_delimited_lonely :
  forall c ol cl pre post s,
    count_occ ascii_dec s c <= 1 ->
    re_sub_delimited (c :: ol) (c :: cl) pre post s = s.
Proof.
  intros c ol cl pre post s H. unfold re_sub_delimited.
  apply scan_no_match; [apply sub_at_shrinks|].
  intros k. unfold sub_at.
  destruct (match_delimited (c :: ol) (c :: cl) (skipn k s))
    as [[g rest]|] eqn:E; [|reflexivity].
  exfalso. apply match_delimited_split in E. destruct E as (Hs & _ & _).
  pose proof (count_occ_skipn c k s) as Hle. rewrite Hs in Hle.
  rewrite !count_occ_app in Hle. simpl in Hle.
  destruct (ascii_dec c c); [lia | congruence].
Qed.

(** X3. A text in which each of the three marker characters occurs at most
    once (a snake_case name, a single multiplication star) is left as it is
    by the translator. *)
Theorem convert_markdown_lonely_markers :
  forall s,
    (forall c, In c marker_chars -> count_occ ascii_dec s c <= 1) ->
    convert_markdown_to_latex_str s = s.
Proof.
  intros s H.
  unfold convert_markdown_to_latex_str, sub_bold2, sub_bold1, sub_italic,
    sub_code.
  cbn [lit list_ascii_of_string].
  assert (Hstar : count_occ ascii_dec s "*"%char <= 1)
    by (apply H; simpl; tauto).
  assert (Hund : count_occ ascii_dec s "_"%char <= 1)
    by (apply H; simpl; tauto).
  assert (Htick : count_occ ascii_dec s "`"%char <= 1)
    by (apply H; simpl; tauto).
  rewrite !(@re_sub_delimited_lonely _ _ _ _ _ s Hstar).
  rewrite (@re_sub_delimited_lonely _ _ _ _ _ s Hund).
  now rewrite (@re_sub_delimited_lonely _ _ _ _ _ s Htick).
Qed.

Lemma convert_markdown_lonely_markers_witness :
  convert_markdown_to_latex_str (lit "2 * build_id, see `make")
  = lit "2 * build_id, see `make".
Proof.
  apply convert_markdown_lonely_markers.
  intros c Hc. simpl in Hc.
  repeat (destruct Hc as [Hc|Hc]; [subst c; vm_compute; lia|]).
  contradiction.
Defined.

(** The lazy group finds a content that lacks the first character of the
    closing delimiter. *)
Lemma lazy_group_found :
  forall c cl g rest,
    g <> [] -> ~ In newline g -> ~ In c g ->
    lazy_group (c :: cl) (g ++ (c :: cl) ++ rest) = Some (g, rest).
Proof.
  intros c cl. induction g as [|x g IH]; intros rest Hg Hn Hc;
    [congruence|].
  change ((x :: g) ++ (c :: cl) ++ rest) with (x :: (g ++ (c :: cl) ++ rest)).
  cbn [lazy_group].
  assert (Hx : Ascii.eqb x newline = false).
  { apply Ascii.eqb_neq. intros ->. apply Hn. now left. }
  rewrite Hx. destruct g as [|y g].
  - change ([] ++ (c :: cl) ++ rest) with ((c :: cl) ++ rest).
    rewrite startswith_app. now rewrite skipn_exact.
  - assert (Hy : Ascii.eqb c y = false).
    { apply Ascii.eqb_neq. intros ->. apply Hc. right. now left. }
    assert (Hs : startswith (c :: cl) ((y :: g) ++ (c :: cl) ++ rest) = false)
      by (cbn [app startswith]; now rewrite Hy).
    rewrite Hs.
    rewrite IH; [reflexivity | discriminate | |].
    + intros Hin. apply Hn. now right.
    + intros Hin. apply Hc. now right.
Qed.

(** A delimited content without the delimiter character is wrapped. *)
Lemma re_sub_delimited_wraps :
  forall c ol cl pre post g rest,
    g <> [] -> ~ In newline g -> ~ In c g ->
    re_sub_delimited (c :: ol) (c :: cl) pre post
                     ((c :: ol) ++ g ++ (c :: cl) ++ rest)
    = pre ++ g ++ post ++ re_sub_delimited (c :: ol) (c :: cl) pre post rest.
Proof.
  intros c ol cl pre post g rest Hg Hn Hc.
  rewrite re_sub_delimited_eq at 1. unfold match_delimited.
  rewrite startswith_app, skipn_exact.
  now rewrite lazy_group_found.
Qed.

Lemma re_sub_delimited_nil :
  forall c ol close pre post,
    re_sub_delimited (c :: ol) close pre post [] = [].
Proof. reflexivity. Qed.

(** ** [str.replace] along a text *)

Lemma not_in_has_char :
  forall a u, has_char a u = false -> ~ In a u.
Proof.
  intros a u H Hin. unfold has_char in H.
  assert (existsb (Ascii.eqb a) u = true) as E.
  { apply existsb_exists. exists a. split; [exact Hin | apply Ascii.eqb_refl]. }
  congruence.
Qed.

Lemma has_char_not_in :
  forall a u, ~ In a u -> has_char a u = false.
Proof.
  intros a u H. unfold has_char.
  destruct (existsb (Ascii.eqb a) u) eqn:E; [|reflexivity].
  apply existsb_exists in E. destruct E as (x & Hx & Hax).
  apply Ascii.eqb_eq in Hax. subst. contradiction.
Qed.

Lemma not_in_app3 :
  forall (a : ascii) u g v,
    ~ In a u -> ~ In a g -> ~ In a v -> ~ In a (u ++ g ++ v).
Proof.
  intros a u g v Hu Hg Hv Hin.
  apply in_app_or in Hin. destruct Hin as [H|H]; [contradiction|].
  apply in_app_or in H. destruct H; contradiction.
Qed.

Lemma clash_startswith :
  forall p t y, clash p t = true -> startswith p (t ++ y) = false.
Proof.
  induction p as [|a p IH]; intros t y H; [discriminate|].
  destruct t as [|b t]; [discriminate|].
  cbn [clash] in H. cbn [app startswith].
  destruct (Ascii.eqb a b); [|reflexivity].
  cbn [andb]. now apply IH.
Qed.

Lemma replace_nil :
  forall a old new, replace (a :: old) new [] = [].
Proof. reflexivity. Qed.

(** The scan copies a stretch in which no occurrence can start. *)
Lemma replace_past_clash :
  forall a old new u x,
    clash_all (a :: old) u = true ->
    replace (a :: old) new (u ++ x) = u ++ replace (a :: old) new x.
Proof.
  intros a old new. induction u as [|b u IH]; intros x H; [reflexivity|].
  cbn [clash_all] in H. apply andb_true_iff in H. destruct H as [Hc Hu].
  unfold replace in *.
  rewrite scan_eq by apply replace_at_shrinks.
  unfold replace_at at 1.
  rewrite (clash_startswith _ _ x Hc).
  cbn [app]. f_equal. now apply IH.
Qed.

Lemma replace_past_absent :
  forall a old new u x,
    ~ In a u ->
    replace (a :: old) new (u ++ x) = u ++ replace (a :: old) new x.
Proof.
  intros a old new. induction u as [|b u IH]; intros x H; [reflexivity|].
  unfold replace in *.
  rewrite scan_eq by apply replace_at_shrinks.
  unfold replace_at at 1.
  assert (Hab : Ascii.eqb a b = false).
  { apply Ascii.eqb_neq. intros ->. apply H. now left. }
  cbn [app startswith]. rewrite Hab. cbn [andb].
  f_equal. apply IH. intros Hin. apply H. now right.
Qed.

Lemma replace_prefix :
  forall a old new x,
    replace (a :: old) new ((a :: old) ++ x)
    = new ++ replace (a :: old) new x.
Proof.
  intros a old new x. unfold replace.
  rewrite scan_eq at 1 by apply replace_at_shrinks.
  unfold replace_at at 1.
  now rewrite startswith_app, skipn_exact.
Qed.

Lemma replace_self :
  forall a old new, replace (a :: old) new (a :: old) = new.
Proof.
  intros a old new.
  rewrite <- (app_nil_r (a :: old)) at 2.
  rewrite replace_prefix, replace_nil. apply app_nil_r.
Qed.

Lemma replace_head_absent :
  forall a old new s, ~ In a s -> replace (a :: old) new s = s.
Proof.
  intros a old new s H. apply replace_absent.
  now apply contains_head_absent.
Qed.

(** ** The forms of the docstring *)

(** One step of following a [replace] along a text made of written-out
    pieces and a piece [g] without [<]. *)
Ltac replace_along Hg :=
  first
    [ rewrite replace_prefix
    | rewrite replace_self
    | rewrite replace_past_absent
        by first [ exact Hg | apply not_in_has_char; vm_compute; reflexivity ]
    | rewrite replace_past_clash by (vm_compute; reflexivity)
    | rewrite replace_absent by (vm_compute; reflexivity) ].

Lemma resolve_placeholders_bold :
  forall g,
    ~ In "<"%char g ->
    resolve_placeholders (TEXTBFSTART ++ g ++ TEXTBFEND)
    = lit "\textbf{" ++ g ++ lit "}".
Proof.
  intros g Hg. unfold resolve_placeholders.
  cbv [TEXTBFSTART TEXTBFEND TEXTITSTART TEXTITEND TEXTTTSTART TEXTTTEND
       lit list_ascii_of_string].
  repeat replace_along Hg. reflexivity.
Qed.

Lemma resolve_placeholders_italic :
  forall g,
    ~ In "<"%char g ->
    resolve_placeholders (TEXTITSTART ++ g ++ TEXTITEND)
    = lit "\textit{" ++ g ++ lit "}".
Proof.
  intros g Hg. unfold resolve_placeholders.
  cbv [TEXTBFSTART TEXTBFEND TEXTITSTART TEXTITEND TEXTTTSTART TEXTTTEND
       lit list_ascii_of_string].
  repeat replace_along Hg. reflexivity.
Qed.

Lemma resolve_placeholders_code :
  forall g,
    ~ In "<"%char g ->
    resolve_placeholders (TEXTTTSTART ++ g ++ TEXTTTEND)
    = lit "\texttt{" ++ g ++ lit "}".
Proof.
  intros g Hg. unfold resolve_placeholders.
  cbv [TEXTBFSTART TEXTBFEND TEXTITSTART TEXTITEND TEXTTTSTART TEXTTTEND
       lit list_ascii_of_string].
  repeat replace_along Hg. reflexivity.
Qed.

Lemma free_of_app :
  forall cs a b, free_of cs (a ++ b) = free_of cs a && free_of cs b.
Proof. intros cs a b. unfold free_of. apply forallb_app. Qed.

Lemma free_of_sublist :
  forall cs cs' s,
    incl cs cs' -> free_of cs' s = true -> free_of cs s = true.
Proof.
  intros cs cs' s Hincl H. unfold free_of in *.
  rewrite forallb_forall in *. intros x Hx.
  apply negb_true_iff. apply has_char_not_in. intros Hin.
  apply (free_of_not_in _ _ _ (proj2 (forallb_forall _ _) H) (Hincl _ Hin)).
  exact Hx.
Qed.

Lemma word_lacks :
  forall g c,
    word g ->
    In c (marker_chars ++ reserved_chars ++ [newline; "<"%char]) ->
    ~ In c g.
Proof.
  intros g c [_ H] Hc. exact (free_of_not_in _ _ _ H Hc).
Qed.

Lemma re_sub_delimited_wraps_whole :
  forall c ol cl pre post g,
    g <> [] -> ~ In newline g -> ~ In c g ->
    re_sub_delimited (c :: ol) (c :: cl) pre post
                     ((c :: ol) ++ g ++ (c :: cl))
    = pre ++ g ++ post.
Proof.
  intros c ol cl pre post g Hg Hn Hc.
  pose proof (@re_sub_delimited_wraps c ol cl pre post g [] Hg Hn Hc) as H.
  rewrite app_nil_r in H. rewrite H.
  rewrite re_sub_delimited_nil. now rewrite app_nil_r.
Qed.

(** Between single stars a content without stars is not seen by the
    double-star pass. *)
Lemma sub_bold2_single_stars :
  forall g,
    g <> [] -> ~ In "*"%char g ->
    sub_bold2 (lit "*" ++ g ++ lit "*") = lit "*" ++ g ++ lit "*".
Proof.
  intros g Hg Hstar. unfold sub_bold2.
  apply re_sub_delimited_no_open.
  cbv [lit list_ascii_of_string]. cbn [app contains].
  destruct g as [|x g]; [congruence|].
  assert (Hx : Ascii.eqb "*" x = false).
  { apply Ascii.eqb_neq. intros <-. apply Hstar. now left. }
  cbn [app startswith]. rewrite Ascii.eqb_refl, Hx. cbn [andb orb].
  change (x :: g ++ ["*"%char]) with ((x :: g) ++ ["*"%char]).
  rewrite contains_past_absent by exact Hstar. reflexivity.
Qed.

(** A wrapped content is not touched by a pass whose delimiter it lacks. *)
Lemma re_sub_delimited_wrapped_absent :
  forall c ol cl pre post u g v,
    has_char c u = false -> ~ In c g -> has_char c v = false ->
    re_sub_delimited (c :: ol) cl pre post (u ++ g ++ v) = u ++ g ++ v.
Proof.
  intros c ol cl pre post u g v Hu Hg Hv.
  apply re_sub_delimited_absent.
  apply not_in_app3; auto using not_in_has_char.
Qed.

Lemma escape_chars_wrapped :
  forall u g v,
    free_of reserved_chars u = true -> word g ->
    free_of reserved_chars v = true ->
    escape_chars (replacements true) (u ++ g ++ v) = u ++ g ++ v.
Proof.
  intros u g v Hu [_ Hg] Hv. apply escape_chars_without_reserved.
  assert (Hg' : free_of reserved_chars g = true).
  { apply (@free_of_sublist reserved_chars _ g) with (2 := Hg).
    intros x Hx. apply in_or_app. right. apply in_or_app. now left. }
  now rewrite !free_of_app, Hu, Hv, Hg'.
Qed.

(** X4. The forms the docstring lists: a word between double stars or
    single stars comes out in [\textbf], between underscores in [\textit],
    between backticks in [\texttt]. *)
Theorem sanitize_supported_forms :
  forall g,
    word g ->
    _escape_data (PStr (lit "**" ++ g ++ lit "**"))
    = PStr (lit "\textbf{" ++ g ++ lit "}") /\
    _escape_data (PStr (lit "*" ++ g ++ lit "*"))
    = PStr (lit "\textbf{" ++ g ++ lit "}") /\
    _escape_data (PStr (lit "_" ++ g ++ lit "_"))
    = PStr (lit "\textit{" ++ g ++ lit "}") /\
    _escape_data (PStr (lit "`" ++ g ++ lit "`"))
    = PStr (lit "\texttt{" ++ g ++ lit "}").
Proof.
  intros g Hw.
  assert (Hne : g <> []) by apply Hw.
  assert (Hnl : ~ In newline g)
    by (apply (word_lacks Hw); simpl; tauto).
  assert (Hstar : ~ In "*"%char g)
    by (apply (word_lacks Hw); simpl; tauto).
  assert (Hund : ~ In "_"%char g)
    by (apply (word_lacks Hw); simpl; tauto).
  assert (Htick : ~ In "`"%char g)
    by (apply (word_lacks Hw); simpl; tauto).
  assert (Hlt : ~ In "<"%char g)
    by (apply (word_lacks Hw); simpl; tauto).
  cbn [_escape_data convert_markdown_to_latex escape_latex].
  unfold escape_latex_str, convert_markdown_to_latex_str.
  repeat split; f_equal.
  - unfold sub_bold2 at 1.
    change (lit "**") with ["*"%char; "*"%char].
    rewrite re_sub_delimited_wraps_whole by assumption.
    unfold sub_bold1, sub_italic, sub_code.
    change (lit "*") with ["*"%char]. change (lit "_") with ["_"%char].
    change (lit "`") with ["`"%char].
    rewrite !re_sub_delimited_wrapped_absent
      by first [assumption | vm_compute; reflexivity].
    rewrite escape_chars_wrapped
      by first [assumption | vm_compute; reflexivity].
    now apply resolve_placeholders_bold.
  - rewrite sub_bold2_single_stars by assumption.
    unfold sub_bold1 at 1. change (lit "*") with ["*"%char].
    rewrite re_sub_delimited_wraps_whole by assumption.
    unfold sub_italic, sub_code.
    change (lit "_") with ["_"%char]. change (lit "`") with ["`"%char].
    rewrite !re_sub_delimited_wrapped_absent
      by first [assumption | vm_compute; reflexivity].
    rewrite escape_chars_wrapped
      by first [assumption | vm_compute; reflexivity].
    now apply resolve_placeholders_bold.
  - unfold sub_bold2, sub_bold1, sub_italic, sub_code.
    change (lit "**") with ["*"%char; "*"%char].
    change (lit "*") with ["*"%char]. change (lit "_") with ["_"%char].
    change (lit "`") with ["`"%char].
    rewrite !(@re_sub_delimited_wrapped_absent "*"%char)
      by first [assumption | vm_compute; reflexivity].
    rewrite re_sub_delimited_wraps_whole by assumption.
    rewrite !re_sub_delimited_wrapped_absent
      by first [assumption | vm_compute; reflexivity].
    rewrite escape_chars_wrapped
      by first [assumption | vm_compute; reflexivity].
    now apply resolve_placeholders_italic.
  - unfold sub_bold2, sub_bold1, sub_italic, sub_code.
    change (lit "**") with ["*"%char; "*"%char].
    change (lit "*") with ["*"%char]. change (lit "_") with ["_"%char].
    change (lit "`") with ["`"%char].
    rewrite !(@re_sub_delimited_wrapped_absent "*"%char)
      by first [assumption | vm_compute; reflexivity].
    rewrite !(@re_sub_delimited_wrapped_absent "_"%char)
      by first [assumption | vm_compute; reflexivity].
    rewrite re_sub_delimited_wraps_whole by assumption.
    rewrite escape_chars_wrapped
      by first [assumption | vm_compute; reflexivity].
    now apply resolve_placeholders_code.
Qed.

Lemma sanitize_supported_forms_witness :
  _escape_data (PStr (lit "**" ++ lit "Team lead" ++ lit "**"))
  = PStr (lit "\textbf{" ++ lit "Team lead" ++ lit "}") /\
  _escape_data (PStr (lit "*" ++ lit "Team lead" ++ lit "*"))
  = PStr (lit "\textbf{" ++ lit "Team lead" ++ lit "}") /\
  _escape_data (PStr (lit "_" ++ lit "Team lead" ++ lit "_"))
  = PStr (lit "\textit{" ++ lit "Team lead" ++ lit "}") /\
  _escape_data (PStr (lit "`" ++ lit "Team lead" ++ lit "`"))
  = PStr (lit "\texttt{" ++ lit "Team lead" ++ lit "}").
Proof.
  apply (@sanitize_supported_forms (lit "Team lead")).
  split; [discriminate | vm_compute; reflexivity].
Defined.

(** ** Raw mode, character by character *)

(** A character that is not special is its own image; a special one has a
    longer image. *)
Lemma raw_image_cases :
  forall c,
    (is_special c = false /\ raw_image c = [c]) \/
    (is_special c = true /\ 2 <= length (raw_image c)).
Proof.
  intros c. destruct c as [[] [] [] [] [] [] [] []];
    first [ left; split; vm_compute; reflexivity
          | right; split; [vm_compute; reflexivity | vm_compute; lia] ].
Qed.

Lemma flat_map_raw_image_length :
  forall s, length s <= length (flat_map raw_image s).
Proof.
  induction s as [|x s IH]; simpl; [lia|].
  rewrite length_app.
  destruct (raw_image_cases x) as [[_ E]|[_ E]]; [rewrite E; simpl|]; lia.
Qed.

(** X5. Raw-mode escaping returns its input exactly when the input has
    none of the nine special characters; otherwise the output is longer. *)
Theorem escape_latex_raw_fixed_points :
  forall s,
    (escape_latex_str s false = s <-> free_of special_chars s = true) /\
    length s <= length (escape_latex_str s false).
Proof.
  intros s. rewrite escape_latex_raw_pointwise.
  split; [|apply flat_map_raw_image_length].
  induction s as [|x s IH]; [split; reflexivity|].
  cbn [flat_map free_of forallb].
  fold (free_of special_chars s). fold (is_special x).
  destruct (raw_image_cases x) as [[Hx E]|[Hx E]]; rewrite Hx; cbn [negb andb].
  - rewrite E. cbn [app]. rewrite <- IH. split; congruence.
  - split; [|discriminate]. intros H. exfalso.
    apply (f_equal (@length ascii)) in H.
    rewrite length_app in H. simpl in H.
    pose proof (flat_map_raw_image_length s). lia.
Qed.

(** X6. Raw-mode escaping distributes over concatenation. *)
Theorem escape_latex_raw_app :
  forall a b,
    escape_latex_str (a ++ b) false
    = escape_latex_str a false ++ escape_latex_str b false.
Proof.
  intros a b. rewrite !escape_latex_raw_pointwise. apply flat_map_app.
Qed.

(** ** The preserving mode leaves no reserved character bare *)

Lemma preserve_table_single_keys :
  Forall (fun kv => exists c, fst kv = [c]) (replacements true).
Proof.
  unfold replacements. cbn [negb app].
  repeat (constructor; [eexists; reflexivity|]). constructor.
Qed.

Lemma escape_chars_preserve_pointwise :
  forall s, escape_chars (replacements true) s = flat_map preserve_image s.
Proof.
  intros s. unfold preserve_image.
  apply (escape_chars_pointwise preserve_table_single_keys).
Qed.

Lemma reserved_escaped_app :
  forall a b,
    reserved_escaped a -> reserved_escaped b -> reserved_escaped (a ++ b).
Proof.
  intros a b Ha Hb. induction Ha; simpl.
  - exact Hb.
  - now apply reserved_escaped_plain.
  - now apply reserved_escaped_seq.
Qed.

Ltac reserved_escaped_step :=
  first [ apply reserved_escaped_nil
        | apply reserved_escaped_seq; [simpl; tauto|]
        | apply reserved_escaped_plain; [reflexivity|] ].

Lemma preserve_image_escaped : forall c, reserved_escaped (preserve_image c).
Proof.
  intros c. destruct c as [[] [] [] [] [] [] [] []]; vm_compute;
    repeat reserved_escaped_step.
Qed.

(** In such a text every [& % $ #] comes right after a backslash, and [~]
    and [^] do not occur. *)
Lemma reserved_escaped_preceded :
  forall s,
    reserved_escaped s ->
    forall i c,
      nth_error s i = Some c -> In c reserved_chars ->
      c <> "~"%char /\ c <> "^"%char /\
      exists j, i = S j /\ nth_error s j = Some "\"%char.
Proof.
  intros s H. induction H as [|d s Hd Hs IH|d s Hd Hs IH]; intros i c Hi Hc.
  - destruct i; discriminate.
  - destruct i as [|i]; simpl in Hi.
    + inversion Hi; subst. apply not_in_has_char in Hd. contradiction.
    + destruct (IH _ _ Hi Hc) as (H1 & H2 & j & -> & Hj).
      repeat split; auto. exists (S j). now split.
  - destruct i as [|[|i]]; simpl in Hi.
    + inversion Hi; subst. simpl in Hc. intuition discriminate.
    + inversion Hi; subst. repeat split.
      * intros ->. simpl in Hd. intuition discriminate.
      * intros ->. simpl in Hd. intuition discriminate.
      * exists 0. now split.
    + destruct (IH _ _ Hi Hc) as (H1 & H2 & j & -> & Hj).
      repeat split; auto. exists (S (S j)). now split.
Qed.

(** An occurrence of an inert text ends between two tokens. *)
Lemma reserved_escaped_skip_inert :
  forall old s,
    inert old = true -> reserved_escaped s -> startswith old s = true ->
    reserved_escaped (skipn (length old) s).
Proof.
  induction old as [|a old IH]; intros s Hi Hs Hp; [exact Hs|].
  destruct s as [|b s]; [discriminate|].
  cbn [startswith] in Hp. apply andb_true_iff in Hp. destruct Hp as [Hab Hp].
  apply Ascii.eqb_eq in Hab. subst b.
  cbn [inert forallb] in Hi. apply andb_true_iff in Hi.
  destruct Hi as [Ha Hi]. apply andb_true_iff in Ha. destruct Ha as [Hbs Hres].
  cbn [length skipn]. inversion Hs; subst.
  - now apply IH.
  - rewrite Ascii.eqb_refl in Hbs. discriminate.
Qed.

(** Replacing an inert text by a well escaped one keeps a text well
    escaped. *)
Lemma replace_keeps_reserved_escaped :
  forall a old new,
    inert (a :: old) = true -> reserved_escaped new ->
    forall s, reserved_escaped s -> reserved_escaped (replace (a :: old) new s).
Proof.
  intros a old new Hi Hnew s.
  remember (length s) as n eqn:Hn. revert s Hn.
  induction n as [n IH] using lt_wf_ind. intros s Hn Hs.
  assert (Ha : Ascii.eqb a "\"%char = false /\ has_char a reserved_chars = false).
  { cbn [inert forallb] in Hi. apply andb_true_iff in Hi.
    destruct Hi as [Ha _]. apply andb_true_iff in Ha.
    destruct Ha as [H1 H2]. now rewrite negb_true_iff in H1, H2. }
  destruct Ha as [Habs Hares].
  unfold replace. rewrite scan_eq by apply replace_at_shrinks.
  unfold replace_at at 1.
  destruct (startswith (a :: old) s) eqn:Ep.
  - apply reserved_escaped_app; [exact Hnew|].
    apply (IH (length (skipn (length (a :: old)) s)));
      [ rewrite length_skipn; destruct s; [discriminate|]; subst n; simpl; lia
      | reflexivity
      | now apply reserved_escaped_skip_inert ].
  - inversion Hs as [|c s' Hc Hs' E|c s' Hc Hs' E]; subst.
    + constructor.
    + apply reserved_escaped_plain; [exact Hc|].
      apply (IH (length s')); auto; simpl; lia.
    + rewrite scan_eq by apply replace_at_shrinks.
      unfold replace_at at 1.
      assert (Hac : Ascii.eqb a c = false).
      { apply Ascii.eqb_neq. intros ->.
        apply not_in_has_char in Hares. apply Hares.
        simpl in Hc. simpl. tauto. }
      cbn [startswith]. rewrite Hac. cbn [andb].
      apply reserved_escaped_seq; [exact Hc|].
      apply (IH (length s')); auto; simpl; lia.
Qed.

(** X7. In the preserving mode too the output has no bare reserved
    character: [& % $ #] stand only right after a backslash the escaper
    wrote, [~] and [^] do not occur, whatever placeholders were resolved. *)
Theorem escape_latex_preserve_no_bare_reserved :
  forall s, reserved_escaped (escape_latex_str s true).
Proof.
  intros s. unfold escape_latex_str, resolve_placeholders.
  repeat (apply replace_keeps_reserved_escaped;
          [ vm_compute; reflexivity
          | vm_compute; repeat reserved_escaped_step | ]).
  rewrite escape_chars_preserve_pointwise.
  induction s as [|x s IH]; simpl.
  - constructor.
  - apply reserved_escaped_app; [apply preserve_image_escaped | exact IH].
Qed.

(** ** The sanitizer over whole values *)

Lemma strings_all_list :
  forall P l, strings_all P (PList l) <-> Forall (strings_all P) l.
Proof.
  intros P l. cbn [strings_all]. induction l as [|x l IH].
  - split; [constructor | trivial].
  - split.
    + intros [Hx Hl]. constructor; [exact Hx | now apply IH].
    + intros H. inversion H; subst. split; [assumption | now apply IH].
Qed.

Lemma strings_all_dict :
  forall P items,
    strings_all P (PDict items) <->
    Forall (fun kv => strings_all P (snd kv)) items.
Proof.
  intros P items. cbn [strings_all]. induction items as [|kv items IH].
  - split; [constructor | trivial].
  - split.
    + intros [Hx Hl]. constructor; [exact Hx | now apply IH].
    + intros H. inversion H; subst. split; [assumption | now apply IH].
Qed.

(** No string value of a sanitized value has a bare reserved character. *)
Lemma escape_data_values_no_bare_reserved :
  forall data,
    dict_wf data -> strings_all reserved_escaped (_escape_data data).
Proof.
  induction data as [| | | | | s | l IH | items IH] using pyval_nested_ind;
    intros Hwf; try exact I.
  - cbn [_escape_data convert_markdown_to_latex escape_latex strings_all].
    unfold escape_latex_str, resolve_placeholders.
    repeat (apply replace_keeps_reserved_escaped;
            [ vm_compute; reflexivity
            | vm_compute; repeat reserved_escaped_step | ]).
    rewrite escape_chars_preserve_pointwise.
    generalize (convert_markdown_to_latex_str s). intros t.
    induction t as [|x t IHt]; simpl.
    + constructor.
    + apply reserved_escaped_app; [apply preserve_image_escaped | exact IHt].
  - apply dict_wf_list in Hwf. cbn [_escape_data].
    apply strings_all_list. apply Forall_forall. intros y Hy.
    apply in_map_iff in Hy. destruct Hy as (x & <- & Hx).
    rewrite Forall_forall in IH, Hwf. apply IH; auto.
  - apply dict_wf_dict in Hwf. destruct Hwf as [Hkeys Hvals].
    rewrite escape_data_dict by exact Hkeys.
    apply strings_all_dict. apply Forall_forall. intros y Hy.
    apply in_map_iff in Hy. destruct Hy as ([k x] & <- & Hx).
    rewrite Forall_forall in IH, Hvals. cbn [snd].
    apply (IH (k, x) Hx). apply (Hvals (k, x) Hx).
Qed.

Lemma escape_data_plain_string :
  forall s, plain s -> _escape_data (PStr s) = PStr s.
Proof.
  intros s (Hm & Hr & Hp).
  cbn [_escape_data convert_markdown_to_latex escape_latex].
  unfold escape_latex_str.
  rewrite convert_markdown_without_markers by exact Hm.
  rewrite escape_chars_without_reserved by exact Hr.
  now rewrite resolve_placeholders_absent.
Qed.

Lemma map_id_in :
  forall (A : Type) (f : A -> A) l,
    (forall x, In x l -> f x = x) -> map f l = l.
Proof.
  intros A f. induction l as [|x l IH]; intros H; simpl; [reflexivity|].
  rewrite H by now left. f_equal. apply IH. intros y Hy. apply H. now right.
Qed.

(** X9. Data whose strings hold no marker character, no reserved
    character and no placeholder marker (numbers, dates, plain names) goes
    through the sanitizer unchanged, whatever its nesting. *)
Theorem escape_data_plain_unchanged :
  forall data,
    dict_wf data -> strings_all plain data -> _escape_data data = data.
Proof.
  induction data as [| | | | | s | l IH | items IH] using pyval_nested_ind;
    intros Hwf Hplain; try reflexivity.
  - now apply escape_data_plain_string.
  - apply dict_wf_list in Hwf. apply strings_all_list in Hplain.
    cbn [_escape_data]. f_equal. apply map_id_in. intros x Hx.
    rewrite Forall_forall in IH, Hwf, Hplain. apply IH; auto.
  - apply dict_wf_dict in Hwf. destruct Hwf as [Hkeys Hvals].
    apply strings_all_dict in Hplain.
    rewrite escape_data_dict by exact Hkeys. f_equal.
    apply map_id_in. intros [k x] Hx.
    rewrite Forall_forall in IH, Hvals, Hplain. f_equal.
    apply (IH (k, x) Hx); [apply (Hvals (k, x) Hx) | apply (Hplain (k, x) Hx)].
Qed.

Lemma escape_data_plain_unchanged_witness :
  _escape_data
    (PDict [ (lit "name", PStr (lit "Ada Lovelace"));
             (lit "years", PList [PInt 1843; PNone; PStr (lit "n/a")]) ])
  = PDict [ (lit "name", PStr (lit "Ada Lovelace"));
            (lit "years", PList [PInt 1843; PNone; PStr (lit "n/a")]) ].
Proof.
  assert (Hplain : forall s,
             free_of marker_chars s = true ->
             free_of reserved_chars s = true ->
             has_char "<"%char s = false -> plain s).
  { intros s Hm Hr Hlt. repeat split; auto.
    intros p Hp. unfold placeholders in Hp. simpl in Hp.
    apply not_in_has_char in Hlt.
    repeat (destruct Hp as [Hp|Hp];
            [subst p; now apply contains_head_absent|]).
    contradiction. }
  apply escape_data_plain_unchanged.
  - simpl. repeat constructor; simpl; intuition discriminate.
  - simpl. repeat split; apply Hplain; vm_compute; reflexivity.
Defined.

(** ** The directory loader, in general *)

Lemma dict_keys_app :
  forall a b, dict_keys (a ++ b) = dict_keys a ++ dict_keys b.
Proof. intros a b. unfold dict_keys. apply map_app. Qed.

(** The loop over sections appends the sections it finds, in order. *)
Lemma load_sections_loaded :
  forall entries todo acc,
    NoDup todo ->
    (forall section, In section todo -> ~ In section (dict_keys acc)) ->
    (forall section e,
        In section todo -> entries (section_file section) <> Some (Raise e)) ->
    load_sections entries todo acc
    = Return (acc ++ loaded_items entries todo).
Proof.
  intros entries. induction todo as [|section todo IH];
    intros acc Hnd Hfresh Hok.
  - simpl. now rewrite app_nil_r.
  - inversion Hnd as [|x l Hnotin Hnd']; subst.
    cbn [load_sections loaded_items flat_map].
    fold (section_file section).
    fold (loaded_items entries todo).
    destruct (entries (section_file section)) as [[v|e]|] eqn:E.
    + rewrite dict_set_fresh by (apply Hfresh; now left).
      rewrite IH.
      * now rewrite <- app_assoc.
      * exact Hnd'.
      * intros s Hs Hin. rewrite dict_keys_app in Hin.
        apply in_app_or in Hin. destruct Hin as [Hin|[<-|[]]].
        -- apply (Hfresh s); [now right | exact Hin].
        -- contradiction.
      * intros s e Hs. apply Hok. now right.
    + exfalso. apply (Hok section e); [now left | exact E].
    + rewrite IH; auto.
      * intros s Hs. apply Hfresh. now right.
      * intros s e Hs. apply Hok. now right.
Qed.

Lemma dict_keys_loaded_items :
  forall entries todo,
    dict_keys (loaded_items entries todo)
    = filter (fun section =>
                match entries (section_file section) with
                | Some (Return _) => true
                | _ => false
                end) todo.
Proof.
  intros entries. induction todo as [|section todo IH]; [reflexivity|].
  cbn [loaded_items flat_map filter]. fold (loaded_items entries todo).
  rewrite dict_keys_app, IH.
  destruct (entries (section_file section)) as [[v|e]|]; reflexivity.
Qed.

Lemma dict_get_absent :
  forall d k, ~ In k (dict_keys d) -> dict_get d k = None.
Proof.
  induction d as [|[k' v] d IH]; intros k H; [reflexivity|].
  cbn [dict_get]. simpl in H.
  rewrite str_eqb_neq by (intros ->; apply H; now left).
  apply IH. intros Hin. apply H. now right.
Qed.

Lemma dict_get_loaded_items :
  forall entries todo section,
    NoDup todo -> In section todo ->
    dict_get (loaded_items entries todo) section
    = match entries (section_file section) with
      | Some (Return v) => Some v
      | _ => None
      end.
Proof.
  intros entries. induction todo as [|s todo IH]; intros section Hnd Hin;
    [contradiction|].
  inversion Hnd as [|x l Hnotin Hnd']; subst.
  cbn [loaded_items flat_map]. fold (loaded_items entries todo).
  destruct Hin as [->|Hin].
  - destruct (entries (section_file section)) as [[v|e]|] eqn:E; cbn [app].
    + cbn [dict_get]. now rewrite str_eqb_refl.
    + apply dict_get_absent. rewrite dict_keys_loaded_items.
      intros H. apply filter_In in H. now destruct H.
    + apply dict_get_absent. rewrite dict_keys_loaded_items.
      intros H. apply filter_In in H. now destruct H.
  - assert (Hne : section <> s) by (intros ->; contradiction).
    destruct (entries (section_file s)) as [[v|e]|]; cbn [app dict_get];
      rewrite ?(str_eqb_neq Hne); now apply IH.
Qed.

Lemma sections_nodup : NoDup sections.
Proof.
  unfold sections.
  repeat (constructor; [simpl; intuition discriminate|]). constructor.
Qed.

(** X10. When every section file that is there loads, the directory loader
    returns a mapping whose keys are the sections with a file, in the order
    of the section list, each bound to what its file holds; a section
    without a file has no key. *)
Theorem load_from_directory_present_sections :
  forall entries,
    (forall section e,
        In section sections ->
        entries (section_file section) <> Some (Raise e)) ->
    exists data,
      load_resume_data (Directory entries) = Return (PDict data) /\
      dict_keys data
      = filter (fun section =>
                  match entries (section_file section) with
                  | Some _ => true
                  | None => false
                  end) sections /\
      forall section,
        In section sections ->
        dict_get data section
        = match entries (section_file section) with
          | Some (Return v) => Some v
          | _ => None
          end.
Proof.
  intros entries Hok. exists (loaded_items entries sections).
  split; [|split].
  - unfold load_resume_data, _load_from_directory.
    rewrite load_sections_loaded; auto using sections_nodup.
  - rewrite dict_keys_loaded_items. apply filter_ext_in.
    intros s Hs. destruct (entries (section_file s)) as [[v|e]|] eqn:E;
      try reflexivity.
    exfalso. apply (Hok s e Hs E).
  - intros section Hs. apply dict_get_loaded_items; auto using sections_nodup.
Qed.

Lemma load_from_directory_present_sections_witness :
  exists data,
    load_resume_data (Directory two_section_directory) = Return (PDict data) /\
    dict_keys data
    = filter (fun section =>
                match two_section_directory (section_file section) with
                | Some _ => true
                | None => false
                end) sections /\
    forall section,
      In section sections ->
      dict_get data section
      = match two_section_directory (section_file section) with
        | Some (Return v) => Some v
        | _ => None
        end.
Proof.
  apply load_from_directory_present_sections.
  intros section e Hs. unfold sections in Hs. simpl in Hs.
  repeat (destruct Hs as [Hs|Hs]; [subst section; vm_compute; discriminate|]).
  contradiction.
Defined.

Lemma load_sections_raises :
  forall entries before section after e acc,
    (forall s e', In s before -> entries (section_file s) <> Some (Raise e')) ->
    entries (section_file section) = Some (Raise e) ->
    load_sections entries (before ++ section :: after) acc = Raise e.
Proof.
  intros entries. induction before as [|s before IH];
    intros section after e acc Hok Hbad.
  - cbn [app load_sections]. fold (section_file section). now rewrite Hbad.
  - cbn [app load_sections]. fold (section_file s).
    destruct (entries (section_file s)) as [[v|e']|] eqn:E.
    + apply IH; auto. intros s' e' Hs'. apply Hok. now right.
    + exfalso. apply (Hok s e'); [now left | exact E].
    + apply IH; auto. intros s' e' Hs'. apply Hok. now right.
Qed.

(** X11. The directory loader stops at the first section file, in the
    order of the section list, that cannot be loaded, and raises its
    exception: no partial mapping is returned. *)
Theorem load_from_directory_first_failure :
  forall entries before section after e,
    sections = before ++ section :: after ->
    (forall s e', In s before -> entries (section_file s) <> Some (Raise e')) ->
    entries (section_file section) = Some (Raise e) ->
    load_resume_data (Directory entries) = Raise e.
Proof.
  intros entries before section after e Hsec Hok Hbad.
  unfold load_resume_data, _load_from_directory. rewrite Hsec.
  now rewrite (load_sections_raises _ _ _ _ _ Hok Hbad).
Qed.

Lemma load_from_directory_first_failure_witness :
  load_resume_data
    (Directory (fun name =>
                  if str_eqb name (lit "config.yaml")
                  then Some (Raise (OtherException (lit "yaml.YAMLError")))
                  else two_section_directory name))
  = Raise (OtherException (lit "yaml.YAMLError")).
Proof.
  apply (@load_from_directory_first_failure _
           [lit "personal"] (lit "config")
           [lit "experience"; lit "projects"; lit "education"; lit "skills";
            lit "research"]).
  - reflexivity.
  - intros s e' [<-|[]]. vm_compute. discriminate.
  - vm_compute. reflexivity.
Defined.

(** ** The stages of [generate] *)

(** X12. When loading raises, [generate] neither renders nor compiles:
    the output directory is untouched, one diagnostic goes to stderr and
    the result is [False]; an exception outside [Exception] is not caught
    and nothing is printed for it. *)
Theorem generate_load_failure :
  forall w yaml_file e template_name output_name st,
    load_resume_data yaml_file = Raise e ->
    generate w yaml_file template_name output_name st
    = ((if is_Exception e then Return false else Raise e),
       {| files := files st;
          stdout := stdout st ++ [lit "# Generating resume from data source"];
          stderr := if is_Exception e
                    then stderr st ++ [lit "# Error loading YAML: " ++ exn_str e]
                    else stderr st |}).
Proof.
  intros w yaml_file e template_name output_name st H.
  unfold generate, bind, print, try_except, lift, except_Exception.
  rewrite H. cbn [files stdout stderr].
  destruct (is_Exception e); reflexivity.
Qed.

Lemma generate_load_failure_witness :
  generate fair_world (File (Raise FileNotFoundError))
           (lit "awesome-cv.tex") (lit "resume") dangling_state
  = ((if is_Exception FileNotFoundError
      then Return false else Raise FileNotFoundError),
     {| files := files dangling_state;
        stdout := stdout dangling_state
                  ++ [lit "# Generating resume from data source"];
        stderr := if is_Exception FileNotFoundError
                  then stderr dangling_state
                       ++ [lit "# Error loading YAML: "
                           ++ exn_str FileNotFoundError]
                  else stderr dangling_state |}).
Proof.
  apply generate_load_failure. reflexivity.
Defined.

(** X13. When the template engine raises on the sanitized data,
    [generate] does not reach the compiler: the output directory is
    untouched, the diagnostic follows the two progress lines, and the
    result is [False] (or the exception itself when it is outside
    [Exception]). *)
Theorem generate_render_failure :
  forall w yaml_file data e template_name output_name st,
    load_resume_data yaml_file = Return data ->
    jinja_render w template_name (_escape_data data) = Raise e ->
    generate w yaml_file template_name output_name st
    = ((if is_Exception e then Return false else Raise e),
       {| files := files st;
          stdout := (stdout st ++ [lit "# Generating resume from data source"])
                    ++ [lit "# Loaded resume data"];
          stderr := if is_Exception e
                    then stderr st
                         ++ [lit "# Error rendering template: " ++ exn_str e]
                    else stderr st |}).
Proof.
  intros w yaml_file data e template_name output_name st Hl Hr.
  unfold generate, bind, print, try_except, lift, except_Exception,
    render_template, ret.
  rewrite Hl. cbn beta iota. rewrite Hr.
  destruct (is_Exception e); reflexivity.
Qed.

Lemma generate_render_failure_witness :
  generate
    {| output_dir := lit "output";
       asset_exists := fun _ => true;
       write_file := fun _ _ => None;
       tectonic := fun _ f => (Return [], f);
       jinja_render :=
         fun _ _ => Raise (OtherException (lit "TemplateNotFound")) |}
    (File (Return PNone)) (lit "missing.tex") (lit "resume") clean_state
  = ((if is_Exception (OtherException (lit "TemplateNotFound"))
      then Return false
      else Raise (OtherException (lit "TemplateNotFound"))),
     {| files := files clean_state;
        stdout := (stdout clean_state
                   ++ [lit "# Generating resume from data source"])
                  ++ [lit "# Loaded resume data"];
        stderr := if is_Exception (OtherException (lit "TemplateNotFound"))
                  then stderr clean_state
                       ++ [lit "# Error rendering template: "
                           ++ exn_str (OtherException (lit "TemplateNotFound"))]
                  else stderr clean_state |}).
Proof.
  apply (@generate_render_failure _ _ PNone); reflexivity.
Defined.

(** ** The compiler stage, case by case *)

(** The [finally] block returns, touches neither stream, and turns links
    into absent paths only. *)
Lemma remove_symlinks_effect :
  forall st,
    (remove_symlink cls_symlink ;; remove_symlink fonts_symlink) st
    = (Return tt,
       {| files :=
            {| cls_node := match cls_node (files st) with
                           | Symlink _ => Absent
                           | n => n
                           end;
               fonts_node := match fonts_node (files st) with
                             | Symlink _ => Absent
                             | n => n
                             end |};
          stdout := stdout st; stderr := stderr st |}).
Proof.
  intros [[c f] out err]. destruct c, f; reflexivity.
Qed.

(** With a [finally] block that returns, the result of the statement is
    the result of its [try]/[except] part. *)
Lemma try_except_finally_eq :
  forall A (body : M A) handler final st,
    (forall st1, exists st2, final st1 = (Return tt, st2)) ->
    try_except_finally body handler final st
    = (fst (try_except body handler st),
       snd (final (snd (try_except body handler st)))).
Proof.
  intros A body handler final st Hfinal. unfold try_except_finally.
  destruct (try_except body handler st) as [r st1]. simpl.
  destruct (Hfinal st1) as [st2 E]. now rewrite E.
Qed.

(** The directory as the compiler finds it. *)
Lemma ensure_symlinks_prepared :
  forall w st,
    dangling (cls_node (files st)) = false ->
    dangling (fonts_node (files st)) = false ->
    (ensure_symlink w cls_symlink ;; ensure_symlink w fonts_symlink) st
    = (Return tt,
       {| files :=
            {| cls_node := match cls_node (files st) with
                           | Absent => Symlink (asset_exists w cls_symlink)
                           | n => n
                           end;
               fonts_node := match fonts_node (files st) with
                             | Absent => Symlink (asset_exists w fonts_symlink)
                             | n => n
                             end |};
          stdout := stdout st; stderr := stderr st |}).
Proof.
  intros w [[c f] out err] Hc Hf. simpl in Hc, Hf.
  destruct c as [|[|]|]; try discriminate;
    destruct f as [|[|]|]; try discriminate; reflexivity.
Qed.

(** What [compile_latex] does once the LaTeX file is written and no path
    is a dangling link, by the outcome of the compiler. *)
Lemma compile_latex_outcome :
  forall w tex_content output_name st,
    write_file w (tex_path w output_name) tex_content = None ->
    dangling (cls_node (files st)) = false ->
    dangling (fonts_node (files st)) = false ->
    compile_latex w tex_content output_name st
    = match tectonic w (tex_path w output_name) (prepared w (files st)) with
      | (Return result_stdout, f) =>
          (Return true,
           {| files := cleaned f;
              stdout :=
                (match result_stdout with
                 | [] => announced w output_name (stdout st)
                 | _ :: _ =>
                     announced w output_name (stdout st) ++ [result_stdout]
                 end)
                ++ [lit "# PDF generated successfully: "
                    ++ output_dir w ++ lit "/" ++ output_name ++ lit ".pdf"];
              stderr := stderr st |})
      | (Raise (CalledProcessError e_stderr), f) =>
          (Return false,
           {| files := cleaned f;
              stdout := announced w output_name (stdout st);
              stderr := stderr st
                        ++ [lit "# Error compiling LaTeX:" ++ [newline]
                            ++ e_stderr] |})
      | (Raise FileNotFoundError, f) =>
          (Return false,
           {| files := cleaned f;
              stdout := announced w output_name (stdout st);
              stderr := stderr st
                        ++ [lit "# Tectonic not found. Install from: https://tectonic-typesetting.github.io/en-US/install.html"] |})
      | (Raise e, f) =>
          (Raise e,
           {| files := cleaned f;
              stdout := announced w output_name (stdout st);
              stderr := stderr st |})
      end.
Proof.
  intros w tex_content output_name [[c f] out err] Hwrite Hc Hf.
  unfold tex_path in *. unfold compile_latex. rewrite Hwrite.
  unfold bind at 1. unfold print at 1.
  rewrite try_except_finally_eq
    by (intros st1; eexists; apply remove_symlinks_effect).
  rewrite remove_symlinks_effect.
  unfold try_except. unfold bind at 1.
  simpl in Hc, Hf.
  destruct c as [|[|]|]; try discriminate;
    destruct f as [|[|]|]; try discriminate;
    cbn -[lit app];
    unfold bind, subprocess_run, print, eprint, ret, prepared;
    cbn [files stdout stderr cls_node fonts_node];
    match goal with
    | |- context [tectonic ?w ?p ?f] =>
        destruct (tectonic w p f) as [[[|x result]|[]] f']
    end; reflexivity.
Qed.

(** With a dangling link in the way, the run stops before the compiler. *)
Lemma compile_latex_dangling :
  forall w tex_content output_name st,
    write_file w (tex_path w output_name) tex_content = None ->
    dangling (cls_node (files st)) || dangling (fonts_node (files st)) = true ->
    compile_latex w tex_content output_name st
    = (Raise FileExistsError,
       {| files := cleaned (files st);
          stdout := stdout st
                    ++ [lit "# LaTeX file written to: "
                        ++ tex_path w output_name];
          stderr := stderr st |}).
Proof.
  intros w tex_content output_name [[c f] out err] Hwrite Hd.
  unfold tex_path in *. unfold compile_latex. rewrite Hwrite.
  unfold bind at 1. unfold print at 1.
  rewrite try_except_finally_eq
    by (intros st1; eexists; apply remove_symlinks_effect).
  rewrite remove_symlinks_effect.
  simpl in Hd.
  destruct c as [|[|]|]; destruct f as [|[|]|]; try discriminate;
    reflexivity.
Qed.

Lemma cleaned_no_dangling :
  forall f,
    dangling (cls_node (cleaned f)) = false /\
    dangling (fonts_node (cleaned f)) = false.
Proof. intros [c f]. destruct c as [|[|]|], f as [|[|]|]; split; reflexivity. Qed.

(** X14. When the compiler cannot be started or exits with an error,
    [compile_latex] returns [False] and tells the two cases apart on
    stderr; any other exception of the compiler call is passed on with
    nothing printed for it.  In every case the links are removed from what
    the compiler left. *)
Theorem compile_latex_compiler_failure :
  forall w tex_content output_name st e f,
    write_file w (tex_path w output_name) tex_content = None ->
    dangling (cls_node (files st)) = false ->
    dangling (fonts_node (files st)) = false ->
    tectonic w (tex_path w output_name) (prepared w (files st)) = (Raise e, f) ->
    compile_latex w tex_content output_name st
    = (match e with
       | CalledProcessError _ | FileNotFoundError => Return false
       | _ => Raise e
       end,
       {| files := cleaned f;
          stdout := announced w output_name (stdout st);
          stderr :=
            match e with
            | CalledProcessError e_stderr =>
                stderr st
                ++ [lit "# Error compiling LaTeX:" ++ [newline] ++ e_stderr]
            | FileNotFoundError =>
                stderr st
                ++ [lit "# Tectonic not found. Install from: https://tectonic-typesetting.github.io/en-US/install.html"]
            | _ => stderr st
            end |}).
Proof.
  intros w tex_content output_name st e f Hwrite Hc Hf Ht.
  rewrite compile_latex_outcome by assumption. rewrite Ht.
  destruct e; reflexivity.
Qed.

Lemma compile_latex_compiler_failure_witness :
  compile_latex failing_compiler_world (lit "\documentclass{awesome-cv}")
                (lit "resume") clean_state
  = (Return false,
     {| files := cleaned (prepared failing_compiler_world (files clean_state));
        stdout := announced failing_compiler_world (lit "resume")
                            (stdout clean_state);
        stderr := stderr clean_state
                  ++ [lit "# Error compiling LaTeX:" ++ [newline]
                      ++ lit "error: halted"] |}).
Proof.
  apply (@compile_latex_compiler_failure
           failing_compiler_world (lit "\documentclass{awesome-cv}")
           (lit "resume") clean_state
           (CalledProcessError (lit "error: halted"))
           (prepared failing_compiler_world (files clean_state)));
    reflexivity.
Defined.

(** X15. A dangling link at one of the two paths makes [compile_latex]
    raise [FileExistsError] before the compiler is announced or run; the
    link is removed on the way out, so the directory it leaves has no
    dangling link for the next run. *)
Theorem compile_latex_dangling_link :
  forall w tex_content output_name st,
    write_file w (tex_path w output_name) tex_content = None ->
    dangling (cls_node (files st)) || dangling (fonts_node (files st)) = true ->
    let r := compile_latex w tex_content output_name st in
    fst r = Raise FileExistsError /\
    stdout (snd r)
    = stdout st ++ [lit "# LaTeX file written to: " ++ tex_path w output_name] /\
    stderr (snd r) = stderr st /\
    dangling (cls_node (files (snd r))) = false /\
    dangling (fonts_node (files (snd r))) = false.
Proof.
  intros w tex_content output_name st Hwrite Hd r. subst r.
  rewrite compile_latex_dangling by assumption. cbn [fst snd files stdout stderr].
  repeat split; apply cleaned_no_dangling.
Qed.

Lemma compile_latex_dangling_link_witness :
  let r := compile_latex fair_world (lit "\documentclass{awesome-cv}")
                         (lit "resume") dangling_state in
  fst r = Raise FileExistsError /\
  stdout (snd r)
  = stdout dangling_state
    ++ [lit "# LaTeX file written to: " ++ tex_path fair_world (lit "resume")] /\
  stderr (snd r) = stderr dangling_state /\
  dangling (cls_node (files (snd r))) = false /\
  dangling (fonts_node (files (snd r))) = false.
Proof.
  apply (@compile_latex_dangling_link fair_world); reflexivity.
Defined.

Lemma node_at_cleaned_entry :
  forall p f, node_at p f = Entry -> node_at p (cleaned f) = Entry.
Proof. intros [] [c f] H; simpl in *; now rewrite H. Qed.

Lemma node_at_prepared_entry :
  forall w p f, node_at p f = Entry -> node_at p (prepared w f) = Entry.
Proof. intros w [] [c f] H; simpl in *; now rewrite H. Qed.

(** X16. A regular file or directory that already sits at one of the two
    paths is neither replaced by a link nor removed: if the compiler leaves
    it alone, it is still there after [compile_latex]. *)
Theorem compile_latex_keeps_regular_entries :
  forall w tex_content output_name st p,
    write_file w (tex_path w output_name) tex_content = None ->
    node_at p (files st) = Entry ->
    (forall f,
        node_at p f = Entry ->
        node_at p (snd (tectonic w (tex_path w output_name) f)) = Entry) ->
    node_at p (files (snd (compile_latex w tex_content output_name st)))
    = Entry.
Proof.
  intros w tex_content output_name st p Hwrite Hp Hkeep.
  destruct (dangling (cls_node (files st))
            || dangling (fonts_node (files st))) eqn:Hd.
  - rewrite compile_latex_dangling by assumption.
    cbn [snd files]. now apply node_at_cleaned_entry.
  - apply orb_false_iff in Hd. destruct Hd as [Hc Hf].
    rewrite compile_latex_outcome by assumption.
    pose proof (Hkeep _ (node_at_prepared_entry w p _ Hp)) as Hafter.
    destruct (tectonic w (tex_path w output_name) (prepared w (files st)))
      as [[out|e] f']; cbn [snd] in Hafter.
    + cbn [snd files]. now apply node_at_cleaned_entry.
    + destruct e; cbn [snd files]; now apply node_at_cleaned_entry.
Qed.

Lemma compile_latex_keeps_regular_entries_witness :
  node_at fonts_symlink
    (files (snd (compile_latex fair_world (lit "\documentclass{awesome-cv}")
                   (lit "resume")
                   {| files := {| cls_node := Absent; fonts_node := Entry |};
                      stdout := []; stderr := [] |})))
  = Entry.
Proof.
  apply (@compile_latex_keeps_regular_entries fair_world).
  - reflexivity.
  - reflexivity.
  - intros f Hf. exact Hf.
Defined.

(** ** From the data source to the exit status *)

(** After a successful load and render, [generate] is [compile_latex] on
    the rendered text, three progress lines later. *)
Lemma generate_reaches_compile :
  forall w yaml_file data tex_content template_name output_name st,
    load_resume_data yaml_file = Return data ->
    render_template w template_name data = Return tex_content ->
    generate w yaml_file template_name output_name st
    = compile_latex w tex_content output_name
        {| files := files st;
           stdout := ((stdout st ++ [lit "# Generating resume from data source"])
                      ++ [lit "# Loaded resume data"])
                     ++ [lit "# Rendered template: {template_name}"];
           stderr := stderr st |}.
Proof.
  intros w yaml_file data tex_content template_name output_name st Hl Hr.
  unfold generate, bind, print, try_except, lift, ret.
  rewrite Hl. cbn beta iota. rewrite Hr. reflexivity.
Qed.

Lemma generate_without_load_is_not_true :
  forall w yaml_file e template_name output_name st,
    load_resume_data yaml_file = Raise e ->
    fst (generate w yaml_file template_name output_name st) <> Return true.
Proof.
  intros w yaml_file e template_name output_name st Hl.
  unfold generate, bind, print, try_except, lift, except_Exception, ret, eprint.
  rewrite Hl. cbn beta iota.
  destruct (is_Exception e); simpl; discriminate.
Qed.

Lemma generate_without_render_is_not_true :
  forall w yaml_file data e template_name output_name st,
    load_resume_data yaml_file = Return data ->
    render_template w template_name data = Raise e ->
    fst (generate w yaml_file template_name output_name st) <> Return true.
Proof.
  intros w yaml_file data e template_name output_name st Hl Hr.
  unfold generate, bind, print, try_except, lift, except_Exception, ret, eprint.
  rewrite Hl. cbn beta iota. rewrite Hr.
  destruct (is_Exception e); simpl; discriminate.
Qed.

(** X17. The process ends with status 0 only if every stage went through:
    the source loaded, the template rendered, the LaTeX file was written,
    no dangling link was in the way and the compiler, run on the prepared
    directory, returned normally. *)
Theorem main_exit_zero_only_after_compiling :
  forall w yaml_file template_name output_name st,
    fst (main w yaml_file template_name output_name st) = 0%Z ->
    exists data tex_content result_stdout f,
      load_resume_data yaml_file = Return data /\
      render_template w template_name data = Return tex_content /\
      write_file w (tex_path w output_name) tex_content = None /\
      dangling (cls_node (files st)) = false /\
      dangling (fonts_node (files st)) = false /\
      tectonic w (tex_path w output_name) (prepared w (files st))
      = (Return result_stdout, f).
Proof.
  intros w yaml_file template_name output_name st Hmain.
  assert (Hgen : fst (generate w yaml_file template_name output_name st)
                 = Return true).
  { unfold main in Hmain.
    destruct (generate w yaml_file template_name output_name st)
      as [[[|]|e] st']; simpl in *; congruence. }
  clear Hmain.
  destruct (load_resume_data yaml_file) as [data|e] eqn:Hl;
    [|exfalso; eapply generate_without_load_is_not_true; eassumption].
  destruct (render_template w template_name data) as [tex|e] eqn:Hr;
    [|exfalso; eapply generate_without_render_is_not_true; eassumption].
  rewrite (@generate_reaches_compile w yaml_file data tex template_name
             output_name st Hl Hr) in Hgen.
  destruct (write_file w (tex_path w output_name) tex) as [e|] eqn:Hw.
  { unfold compile_latex in Hgen. unfold tex_path in Hw.
    rewrite Hw in Hgen. discriminate. }
  remember {| files := files st;
              stdout := ((stdout st
                          ++ [lit "# Generating resume from data source"])
                         ++ [lit "# Loaded resume data"])
                        ++ [lit "# Rendered template: {template_name}"];
              stderr := stderr st |} as st1 eqn:Hst1.
  assert (Hfiles : files st1 = files st) by (subst st1; reflexivity).
  destruct (dangling (cls_node (files st1))
            || dangling (fonts_node (files st1))) eqn:Hd.
  { rewrite compile_latex_dangling in Hgen by assumption. discriminate. }
  apply orb_false_iff in Hd. destruct Hd as [Hc Hf].
  rewrite compile_latex_outcome in Hgen by assumption.
  rewrite Hfiles in *.
  destruct (tectonic w (tex_path w output_name) (prepared w (files st)))
    as [[out|e] f'] eqn:Ht.
  - exists data, tex, out, f'. repeat split; auto.
  - destruct e; discriminate.
Qed.

Lemma main_exit_zero_only_after_compiling_witness :
  exists data tex_content result_stdout f,
    load_resume_data (Directory two_section_directory) = Return data /\
    render_template fair_world (lit "awesome-cv.tex") data
    = Return tex_content /\
    write_file fair_world (tex_path fair_world (lit "resume")) tex_content
    = None /\
    dangling (cls_node (files clean_state)) = false /\
    dangling (fonts_node (files clean_state)) = false /\
    tectonic fair_world (tex_path fair_world (lit "resume"))
             (prepared fair_world (files clean_state))
    = (Return result_stdout, f).
Proof.
  apply (@main_exit_zero_only_after_compiling
           fair_world (Directory two_section_directory)
           (lit "awesome-cv.tex") (lit "resume") clean_state).
  vm_compute. reflexivity.
Defined.

(** X18. When the source loads, the template renders, the LaTeX file can
    be written, no dangling link is in the way and the compiler returns
    normally, [generate] returns [True], the exit status is 0, and the
    output directory is what the compiler left with the links removed. *)
Theorem generate_success :
  forall w yaml_file data tex_content template_name output_name st
         result_stdout f,
    load_resume_data yaml_file = Return data ->
    render_template w template_name data = Return tex_content ->
    write_file w (tex_path w output_name) tex_content = None ->
    dangling (cls_node (files st)) = false ->
    dangling (fonts_node (files st)) = false ->
    tectonic w (tex_path w output_name) (prepared w (files st))
    = (Return result_stdout, f) ->
    fst (generate w yaml_file template_name output_name st) = Return true /\
    files (snd (generate w yaml_file template_name output_name st))
    = cleaned f /\
    fst (main w yaml_file template_name output_name st) = 0%Z.
Proof.
  intros w yaml_file data tex_content template_name output_name st
         result_stdout f Hl Hr Hw Hc Hf Ht.
  unfold main.
  rewrite (@generate_reaches_compile w yaml_file data tex_content
             template_name output_name st Hl Hr).
  rewrite compile_latex_outcome by assumption.
  cbn [files]. rewrite Ht. repeat split.
Qed.

Lemma generate_success_witness :
  fst (generate fair_world (Directory two_section_directory)
                (lit "awesome-cv.tex") (lit "resume") clean_state)
  = Return true /\
  files (snd (generate fair_world (Directory two_section_directory)
                       (lit "awesome-cv.tex") (lit "resume") clean_state))
  = cleaned (prepared fair_world (files clean_state)) /\
  fst (main fair_world (Directory two_section_directory)
            (lit "awesome-cv.tex") (lit "resume") clean_state) = 0%Z.
Proof.
  apply (@generate_success
           fair_world (Directory two_section_directory)
           (PDict [ (lit "personal", PDict [(lit "name", PStr (lit "Ada"))]);
                    (lit "skills",
                     PList [PStr (lit "C#"); PStr (lit "Rocq")]) ])
           (lit "\documentclass{awesome-cv}")
           (lit "awesome-cv.tex") (lit "resume") clean_state []
           (prepared fair_world (files clean_state)));
    vm_compute; reflexivity.
Defined.

(** ** No placeholder marker survives the preserving mode *)

(** Where the output of a [replace] starts with a text that lacks the
    first character of the replacement, the input started with it too. *)
Lemma startswith_replace_back :
  forall a old n0 new q s,
    has_char n0 q = false ->
    startswith q (replace (a :: old) (n0 :: new) s) = true ->
    startswith q s = true.
Proof.
  intros a old n0 new. induction q as [|b q IH]; intros s Hq H;
    [reflexivity|].
  unfold has_char in Hq. cbn [existsb] in Hq. apply orb_false_iff in Hq.
  destruct Hq as [Hb Hq].
  unfold replace in H. rewrite scan_eq in H by apply replace_at_shrinks.
  unfold replace_at in H at 1.
  destruct (startswith (a :: old) s).
  - cbn [app startswith] in H. rewrite Ascii.eqb_sym, Hb in H. discriminate.
  - destruct s as [|c s]; [discriminate|].
    cbn [startswith] in *. apply andb_true_iff in H. destruct H as [Hbc H].
    rewrite Hbc. cbn [andb]. now apply IH.
Qed.

Lemma contains_skipn_absent :
  forall p k s, contains p s = false -> contains p (skipn k s) = false.
Proof.
  intros p. induction k as [|k IH]; intros s H; [exact H|].
  destruct s as [|c s]; [exact H|].
  cbn [skipn]. apply IH. cbn [contains] in H.
  now apply orb_false_iff in H.
Qed.

(** A text that was absent stays absent when the replacement shares no
    character with its ends. *)
Lemma replace_keeps_absent :
  forall a old n0 new b p,
    has_char n0 (b :: p) = false ->
    has_char b (n0 :: new) = false ->
    forall s,
      contains (b :: p) s = false ->
      contains (b :: p) (replace (a :: old) (n0 :: new) s) = false.
Proof.
  intros a old n0 new b p Hn Hb s.
  remember (length s) as n eqn:Hlen. revert s Hlen.
  induction n as [n IH] using lt_wf_ind. intros s Hlen Habs.
  unfold replace. rewrite scan_eq by apply replace_at_shrinks.
  unfold replace_at at 1.
  destruct (startswith (a :: old) s) eqn:Ep.
  - rewrite contains_past_absent by (now apply not_in_has_char).
    apply (IH (length (skipn (length (a :: old)) s)));
      [ rewrite length_skipn; destruct s; [discriminate|]; subst n; simpl; lia
      | reflexivity
      | now apply contains_skipn_absent ].
  - destruct s as [|c s]; [reflexivity|].
    cbn [contains] in Habs. apply orb_false_iff in Habs.
    destruct Habs as [Hhere Hrest].
    cbn [contains]. apply orb_false_iff. split.
    + destruct (startswith (b :: p)
                  (c :: scan (replace_at (a :: old) (n0 :: new)) s)) eqn:E;
        [|reflexivity].
      assert (E' : startswith (b :: p) (replace (a :: old) (n0 :: new) (c :: s))
                   = true).
      { unfold replace. rewrite scan_eq by apply replace_at_shrinks.
        unfold replace_at at 1. now rewrite Ep. }
      apply startswith_replace_back in E'; [congruence | exact Hn].
    + apply (IH (length s)); auto; subst n; simpl; lia.
Qed.

(** After a [replace] no occurrence of the replaced text is left, when
    the replacement shares no character with its ends. *)
Lemma replace_removes :
  forall a old n0 new,
    has_char n0 (a :: old) = false ->
    has_char a (n0 :: new) = false ->
    forall s, contains (a :: old) (replace (a :: old) (n0 :: new) s) = false.
Proof.
  intros a old n0 new Hn Ha s.
  remember (length s) as n eqn:Hlen. revert s Hlen.
  induction n as [n IH] using lt_wf_ind. intros s Hlen.
  unfold replace. rewrite scan_eq by apply replace_at_shrinks.
  unfold replace_at at 1.
  destruct (startswith (a :: old) s) eqn:Ep.
  - rewrite contains_past_absent by (now apply not_in_has_char).
    apply (IH (length (skipn (length (a :: old)) s)));
      [ rewrite length_skipn; destruct s; [discriminate|]; subst n; simpl; lia
      | reflexivity ].
  - destruct s as [|c s]; [reflexivity|].
    cbn [contains]. apply orb_false_iff. split.
    + destruct (startswith (a :: old)
                  (c :: scan (replace_at (a :: old) (n0 :: new)) s)) eqn:E;
        [|reflexivity].
      assert (E' : startswith (a :: old)
                     (replace (a :: old) (n0 :: new) (c :: s)) = true).
      { unfold replace. rewrite scan_eq by apply replace_at_shrinks.
        unfold replace_at at 1. now rewrite Ep. }
      apply startswith_replace_back in E'; [congruence | exact Hn].
    + apply (IH (length s)); auto; subst n; simpl; lia.
Qed.

(** X19. Whatever the input, the output of the preserving mode holds none
    of the six placeholder markers. *)
Theorem escape_latex_preserve_no_placeholder_left :
  forall s,
    existsb (fun p => contains p (escape_latex_str s true)) placeholders
    = false.
Proof.
  intros s. unfold escape_latex_str, resolve_placeholders.
  generalize (escape_chars (replacements true) s). intros t.
  cbv [placeholders existsb TEXTBFSTART TEXTBFEND TEXTITSTART TEXTITEND
       TEXTTTSTART TEXTTTEND lit list_ascii_of_string].
  repeat (rewrite orb_false_iff; split); try reflexivity;
    repeat first
      [ apply replace_removes; vm_compute; reflexivity
      | apply replace_keeps_absent; [vm_compute; reflexivity
                                    | vm_compute; reflexivity | ] ].
Qed.

(** A property of every output of the preserving mode holds for every
    string of a sanitized value. *)
Lemma escape_data_strings_all :
  forall (P : str -> Prop),
    (forall t, P (escape_latex_str t true)) ->
    forall data, dict_wf data -> strings_all P (_escape_data data).
Proof.
  intros P HP.
  induction data as [| | | | | s | l IH | items IH] using pyval_nested_ind;
    intros Hwf; try exact I.
  - cbn [_escape_data convert_markdown_to_latex escape_latex strings_all].
    apply HP.
  - apply dict_wf_list in Hwf. cbn [_escape_data].
    apply strings_all_list. apply Forall_forall. intros y Hy.
    apply in_map_iff in Hy. destruct Hy as (x & <- & Hx).
    rewrite Forall_forall in IH, Hwf. apply IH; auto.
  - apply dict_wf_dict in Hwf. destruct Hwf as [Hkeys Hvals].
    rewrite escape_data_dict by exact Hkeys.
    apply strings_all_dict. apply Forall_forall. intros y Hy.
    apply in_map_iff in Hy. destruct Hy as ([k x] & <- & Hx).
    rewrite Forall_forall in IH, Hvals. cbn [snd].
    apply (IH (k, x) Hx). apply (Hvals (k, x) Hx).
Qed.

Lemma no_placeholder_left :
  forall t,
    existsb (fun p => contains p (escape_latex_str t true)) placeholders
    = false.
Proof.
  intros s. unfold escape_latex_str, resolve_placeholders.
  generalize (escape_chars (replacements true) s). intros t.
  cbv [placeholders existsb TEXTBFSTART TEXTBFEND TEXTITSTART TEXTITEND
       TEXTTTSTART TEXTTTEND lit list_ascii_of_string].
  repeat (rewrite orb_false_iff; split); try reflexivity;
    repeat first
      [ apply replace_removes; vm_compute; reflexivity
      | apply replace_keeps_absent; [vm_compute; reflexivity
                                    | vm_compute; reflexivity | ] ].
Qed.

(** No string value of a sanitized value holds a placeholder marker. *)
Lemma escape_data_values_no_placeholder_left :
  forall data,
    dict_wf data ->
    strings_all
      (fun t => existsb (fun p => contains p t) placeholders = false)
      (_escape_data data).
Proof.
  intros data Hwf.
  apply (escape_data_strings_all
           (fun t => existsb (fun p => contains p t) placeholders = false));
    [apply no_placeholder_left | exact Hwf].
Qed.

(** ** Dict keys are copied, string values are sanitized *)

Lemma keys_all_list :
  forall P l, keys_all P (PList l) <-> Forall (keys_all P) l.
Proof.
  intros P l. cbn [keys_all]. induction l as [|x l IH].
  - split; [constructor | trivial].
  - split.
    + intros [Hx Hl]. constructor; [exact Hx | now apply IH].
    + intros H. inversion H; subst. split; [assumption | now apply IH].
Qed.

Lemma keys_all_dict :
  forall P items,
    keys_all P (PDict items) <->
    Forall (fun kv => P (fst kv) /\ keys_all P (snd kv)) items.
Proof.
  intros P items. cbn [keys_all]. induction items as [|kv items IH].
  - split; [constructor | trivial].
  - split.
    + intros [Hx Hl]. constructor; [exact Hx | now apply IH].
    + intros H. inversion H; subst. split; [assumption | now apply IH].
Qed.

(** The keys of a sanitized value are the keys of the value: whatever
    holds of every key before holds of every key after, and conversely. *)
Lemma escape_data_keys_all :
  forall (P : str -> Prop) data,
    dict_wf data ->
    (keys_all P (_escape_data data) <-> keys_all P data).
Proof.
  intros P.
  induction data as [| | | | | s | l IH | items IH] using pyval_nested_ind;
    intros Hwf; try (split; intros; exact I).
  - apply dict_wf_list in Hwf. cbn [_escape_data].
    rewrite !keys_all_list. rewrite Forall_map.
    rewrite !Forall_forall in *.
    split; intros H x Hx; apply (IH x Hx (Hwf x Hx)); now apply H.
  - apply dict_wf_dict in Hwf. destruct Hwf as [Hkeys Hvals].
    rewrite escape_data_dict by exact Hkeys.
    rewrite !keys_all_dict. rewrite Forall_map.
    rewrite !Forall_forall in *.
    split; intros H [k x] Hx; destruct (H (k, x) Hx) as [Hk Hv];
      (split; [exact Hk|]); cbn [snd] in *;
      apply (IH (k, x) Hx (Hvals (k, x) Hx)); exact Hv.
Qed.

(** A key is not sanitized: its reserved characters and markers stay. *)
Example escape_data_copies_keys :
  _escape_data (PDict [(lit "R&D *lab*", PStr (lit "R&D *lab*"))])
  = PDict [(lit "R&D *lab*", PStr (lit "R\&D \textbf{lab}"))].
Proof. vm_compute. reflexivity. Qed.

(** X8. In what [render_template] hands to the template engine, no string
    value, at any depth, has a bare reserved character.  The dict keys are
    another matter: they are copied as they are, so the keys of the result
    are free of bare reserved characters exactly when the keys of the data
    were. *)
Theorem escape_data_strings_no_bare_reserved :
  forall data,
    dict_wf data ->
    strings_all reserved_escaped (_escape_data data) /\
    (keys_all reserved_escaped (_escape_data data)
     <-> keys_all reserved_escaped data).
Proof.
  intros data Hwf. split.
  - now apply escape_data_values_no_bare_reserved.
  - now apply escape_data_keys_all.
Qed.

Lemma escape_data_strings_no_bare_reserved_witness :
  strings_all reserved_escaped
    (_escape_data
       (PDict [ (lit "R&D", PList [PStr (lit "50% *done*"); PInt 2]);
                (lit "team", PDict [(lit "a_b", PStr (lit "#1 & ~2"))]) ])) /\
  (keys_all reserved_escaped
     (_escape_data
        (PDict [ (lit "R&D", PList [PStr (lit "50% *done*"); PInt 2]);
                 (lit "team", PDict [(lit "a_b", PStr (lit "#1 & ~2"))]) ]))
   <-> keys_all reserved_escaped
         (PDict [ (lit "R&D", PList [PStr (lit "50% *done*"); PInt 2]);
                  (lit "team", PDict [(lit "a_b", PStr (lit "#1 & ~2"))]) ])).
Proof.
  apply escape_data_strings_no_bare_reserved.
  simpl. repeat constructor; simpl; intuition discriminate.
Defined.

(** X20. In what [render_template] hands to the template engine, no string
    value, at any depth, holds a placeholder marker.  The dict keys are
    copied as they are, so the keys of the result are free of placeholder
    markers exactly when the keys of the data were. *)
Theorem escape_data_no_placeholder_left :
  forall data,
    dict_wf data ->
    strings_all
      (fun t => existsb (fun p => contains p t) placeholders = false)
      (_escape_data data) /\
    (keys_all
       (fun t => existsb (fun p => contains p t) placeholders = false)
       (_escape_data data)
     <-> keys_all
           (fun t => existsb (fun p => contains p t) placeholders = false)
           data).
Proof.
  intros data Hwf. split.
  - now apply escape_data_values_no_placeholder_left.
  - now apply escape_data_keys_all.
Qed.

Lemma escape_data_no_placeholder_left_witness :
  strings_all
    (fun t => existsb (fun p => contains p t) placeholders = false)
    (_escape_data
       (PDict [ (lit "<<<TEXTBFSTART>>>", PStr (lit "<<<TEXTBFSTART>>>x"));
                (lit "notes", PList [PStr (lit "_a_ `b`")]) ])) /\
  (keys_all
     (fun t => existsb (fun p => contains p t) placeholders = false)
     (_escape_data
        (PDict [ (lit "<<<TEXTBFSTART>>>", PStr (lit "<<<TEXTBFSTART>>>x"));
                 (lit "notes", PList [PStr (lit "_a_ `b`")]) ]))
   <-> keys_all
         (fun t => existsb (fun p => contains p t) placeholders = false)
         (PDict [ (lit "<<<TEXTBFSTART>>>", PStr (lit "<<<TEXTBFSTART>>>x"));
                  (lit "notes", PList [PStr (lit "_a_ `b`")]) ])).
Proof.
  apply escape_data_no_placeholder_left.
  simpl. repeat constructor; simpl; intuition discriminate.
Defined.

(** ** The raw table away from [~] and [^] *)

(** A loop whose steps keep an invariant and commute pairwise where the
    invariant holds does not depend on their order. *)
Lemma fold_left_permutation_inv :
  forall (A B : Type) (f : A -> B -> A) (Inv : A -> Prop) l l',
    Permutation l l' ->
    (forall x a, In x l -> Inv a -> Inv (f a x)) ->
    (forall x y a, In x l -> In y l -> Inv a -> f (f a x) y = f (f a y) x) ->
    forall a, Inv a -> fold_left f l a = fold_left f l' a.
Proof.
  intros A B f Inv l l' HP.
  induction HP as [|x l l' HP IH|x y l|l l' l'' H1 IH1 H2 IH2];
    intros Hk Hc a Ha; simpl.
  - reflexivity.
  - apply IH.
    + intros u b Hu Hb. apply Hk; [now right | exact Hb].
    + intros u v b Hu Hv Hb. apply Hc; [now right | now right | exact Hb].
    + apply Hk; [now left | exact Ha].
  - f_equal. apply Hc; simpl; tauto.
  - rewrite IH1 by assumption. apply IH2; [| | exact Ha].
    + intros u b Hu Hb.
      apply Hk; [eapply Permutation_in; [apply Permutation_sym|]|]; eassumption.
    + intros u v b Hu Hv Hb.
      apply Hc;
        try (eapply Permutation_in; [apply Permutation_sym|]; eassumption);
        exact Hb.
Qed.

(** A replacement whose text lacks a character does not bring it in. *)
Lemma replace_char_keeps_lacking :
  forall c k r s,
    has_char c s = false -> has_char c r = false ->
    has_char c (replace [k] r s) = false.
Proof.
  intros c k r s Hs Hr. rewrite replace_char. unfold has_char in *.
  induction s as [|x s IH]; [reflexivity|].
  cbn [existsb] in Hs. apply orb_false_iff in Hs. destruct Hs as [Hx Hs].
  cbn [flat_map]. rewrite existsb_app. apply orb_false_iff. split.
  - destruct (Ascii.eqb k x); [exact Hr|]. cbn [existsb]. now rewrite Hx.
  - now apply IH.
Qed.

(** On a text that lacks its character a replacement commutes with any
    other whose text lacks that character too. *)
Lemma replace_char_commute_lacking :
  forall c1 r1 c2 r2 s,
    has_char c1 s = false -> has_char c1 r2 = false ->
    replace [c2] r2 (replace [c1] r1 s) = replace [c1] r1 (replace [c2] r2 s).
Proof.
  intros c1 r1 c2 r2 s Hs Hr.
  rewrite (@replace_char_absent c1 r1 s) by (now apply not_in_has_char).
  rewrite (@replace_char_absent c1 r1 (replace [c2] r2 s)); [reflexivity|].
  apply not_in_has_char. now apply replace_char_keeps_lacking.
Qed.

Lemma raw_replacements_keep_tilde_free :
  forall x a,
    In x (replacements false) -> tilde_free a ->
    tilde_free (replace (fst x) (snd x) a).
Proof.
  intros x a Hx [Ht Hc]. unfold replacements in Hx.
  cbn [negb app In] in Hx.
  repeat (destruct Hx as [Hx|Hx]; [subst x|]); try contradiction;
    cbn [fst snd lit list_ascii_of_string];
    split; apply replace_char_keeps_lacking;
      solve [assumption | vm_compute; reflexivity].
Qed.

Lemma raw_replacements_commute_tilde_free :
  forall x y a,
    In x (replacements false) -> In y (replacements false) ->
    tilde_free a ->
    replace (fst y) (snd y) (replace (fst x) (snd x) a)
    = replace (fst x) (snd x) (replace (fst y) (snd y) a).
Proof.
  intros x y a Hx Hy [Ht Hc]. unfold replacements in Hx, Hy.
  cbn [negb app In] in Hx, Hy.
  repeat (destruct Hx as [Hx|Hx]; [subst x|]); try contradiction;
    repeat (destruct Hy as [Hy|Hy]; [subst y|]); try contradiction;
    cbn [fst snd lit list_ascii_of_string];
    first [ reflexivity
          | apply replace_char_commute; vm_compute; reflexivity
          | apply replace_char_commute_lacking;
            [assumption | vm_compute; reflexivity]
          | symmetry; apply replace_char_commute_lacking;
            [assumption | vm_compute; reflexivity] ].
Qed.

(** X22. On a text with neither [~] nor [^] the nine replacements of the
    raw mode give the same text in whatever order they are applied: the
    order matters only for the two entries whose text holds braces. *)
Theorem raw_replacement_order_irrelevant_without_tilde :
  forall table s,
    Permutation table (replacements false) ->
    tilde_free s ->
    escape_chars table s = escape_chars (replacements false) s.
Proof.
  intros table s HP Hs. unfold escape_chars. symmetry.
  apply (@fold_left_permutation_inv _ _ _ tilde_free);
    [ now apply Permutation_sym | | | exact Hs ].
  - intros x a Hx Ha. now apply raw_replacements_keep_tilde_free.
  - intros x y a Hx Hy Ha. now apply raw_replacements_commute_tilde_free.
Qed.

Lemma raw_replacement_order_irrelevant_without_tilde_witness :
  escape_chars (rev (replacements false)) (lit "R&D {a_b}: 50% of $5, #1")
  = escape_chars (replacements false) (lit "R&D {a_b}: 50% of $5, #1").
Proof.
  apply raw_replacement_order_irrelevant_without_tilde.
  - apply Permutation_sym, Permutation_rev.
  - split; vm_compute; reflexivity.
Defined.
